(** * LSB steganography codec: a shallow embedding of [steganography.py]

    The development follows the Python class [Steganography] method by
    method.  Conventions of the embedding:

    - a Python [str] is the list of its code points ([list N]); string
      literals of the source are written with [lit];
    - a [str] over the alphabet ['0'], ['1'] (the values of [binary],
      [binary_secret], [binary_message] and [byte] in the source) is a
      [list bool], ['1'] being [true]; [format(_, '08b')] and
      [str(value & 1)] produce no other character;
    - a Python [int] is a [Z]; an element of a [uint8] array is a [Z]
      with the predicate [uint8] where the range matters;
    - the imaging library and the file system are a [World]: a finite map
      from paths to images, and the set of paths that can be written;
    - a Python exception is the [Raise] outcome of the monad [M];
      [try: ... except Exception as e: ...] is [try_except]. *)

From stdpp Require Import base numbers list strings gmap.
From Stdlib Require Import Ascii.

Local Open Scope Z_scope.

(** ** Python values *)

(** [str] literal: the code points of an ASCII literal of the source. *)
Definition lit (s : string) : list N :=
  map N_of_ascii (String.list_ascii_of_string s).

(** [ord(char)] and [chr(n)]: a character is its code point. *)
Definition ord (char : N) : N := char.
Definition chr (n : N) : N := n.

(** [range(start, stop, step)] for a positive [step]. *)
Definition range (start stop step : nat) : list nat :=
  map (λ k, start + k * step)%nat (seq 0 ((stop - start + step - 1) / step)%nat).

(** [l[i:j]] for [0 <= i <= j]. *)
Definition slice {A} (l : list A) (i j : nat) : list A :=
  take (j - i) (drop i l).

(** [s.startswith(sub)]. *)
Fixpoint startswith (sub s : list N) : bool :=
  match sub, s with
  | [], _ => true
  | _ :: _, [] => false
  | a :: sub', b :: s' => (a =? b)%N && startswith sub' s'
  end.

(** [s.find(sub)]: the index of the first occurrence, [None] for -1. *)
Fixpoint find (sub s : list N) : option nat :=
  if startswith sub s then Some 0%nat
  else match s with
       | [] => None
       | _ :: s' => S <$> find sub s'
       end.

(** [sub in s]. *)
Definition contains (sub s : list N) : bool :=
  match find sub s with Some _ => true | None => false end.

(** [s.split(sep)[0]] for a non-empty [sep]: the text before the first
    occurrence of [sep], the whole of [s] when there is none. *)
Definition split_head (sep s : list N) : list N :=
  match find sep s with Some i => take i s | None => s end.

(** Binary digits of a positive number, most significant first. *)
Fixpoint bin_pos (p : positive) (acc : list bool) : list bool :=
  match p with
  | xH => true :: acc
  | xO q => bin_pos q (false :: acc)
  | xI q => bin_pos q (true :: acc)
  end.

(** [format(n, 'b')]. *)
Definition bin (n : N) : list bool :=
  match n with
  | N0 => [false]
  | Npos p => bin_pos p []
  end.

(** [format(n, '08b')]: zero-padded on the left to a width of at least 8;
    a longer digit string is kept whole. *)
Definition format_08b (n : N) : list bool :=
  let digits := bin n in
  replicate (8 - length digits) false ++ digits.

(** [int(byte, 2)]. *)
Definition int2 (byte : list bool) : N :=
  fold_left (λ acc b, 2 * acc + N.b2n b)%N byte 0%N.

(** ** The class [Steganography] *)

Definition DELIMITER : list N := lit "<<END>>".

Definition _text_to_binary (text : list N) : list bool :=
  concat (map (λ char, format_08b (ord char)) text).

Definition _binary_to_text (binary : list bool) : list N :=
  fold_left
    (λ text i,
       let byte := slice binary i (i + 8) in
       if decide (length byte = 8%nat) then text ++ [chr (int2 byte)] else text)
    (range 0 (length binary) 8)
    [].

(** ** Images, arrays and the world *)

(** A decoded image.  [pixels] is the content of the image as RGB, in
    row-major, channel-minor order: what [np.array(img)] holds once the
    mode is ['RGB'].  The conversion between colour modes is the imaging
    library's; [convert] makes ['RGB'] the mode of the image. *)
Record Image := mkImage {
  mode : string;
  size : Z * Z;          (* (width, height) *)
  pixels : list Z
}.

Definition convert (img : Image) (m : string) : Image :=
  {| mode := m; size := size img; pixels := pixels img |}.

(** A numpy array of three dimensions with its elements in C order. *)
Record ndarray := mkArray {
  shape : Z * Z * Z;
  elems : list Z
}.

Definition np_array (img : Image) : ndarray :=
  {| shape := (snd (size img), fst (size img), 3); elems := pixels img |}.

Definition flatten (a : ndarray) : list Z := elems a.

(** [flat.reshape(shape)], for a [flat] obtained by [flatten] from an array
    of that shape. *)
Definition reshape (flat : list Z) (sh : Z * Z * Z) : ndarray :=
  {| shape := sh; elems := flat |}.

Definition astype_uint8 (a : ndarray) : ndarray :=
  {| shape := shape a; elems := (λ v, v `mod` 256) <$> elems a |}.

Definition Image_fromarray (a : ndarray) : Image :=
  let '(h, w, _) := shape a in
  {| mode := "RGB"; size := (w, h); pixels := elems a |}.

Record World := mkWorld {
  files : gmap string Image;
  writable : string → bool
}.

(** ** Exceptions and state *)

Inductive exc (A : Type) : Type :=
  | Return (a : A)
  | Raise (e : list N).
Arguments Return {A} a.
Arguments Raise {A} e.

Definition M (A : Type) : Type := World → exc A * World.

Definition ret {A} (a : A) : M A := λ w, (Return a, w).

Definition bind {A B} (m : M A) (k : A → M B) : M B :=
  λ w, match m w with
       | (Return a, w') => k a w'
       | (Raise e, w') => (Raise e, w')
       end.

Definition lift {A} (r : exc A) : M A := λ w, (r, w).

(** [try: body except Exception as e: handler(str(e))]. *)
Definition try_except {A} (body : M A) (handler : list N → M A) : M A :=
  λ w, match body w with
       | (Return a, w') => (Return a, w')
       | (Raise e, w') => handler e w'
       end.

Notation "x <- m ;; k" := (bind m (λ x, k))
  (at level 100, m at next level, right associativity,
   format "'[v' x  <-  m  ;;  '/' k ']'").

(** [Image.open(path)]; an image that cannot be read raises.  The images of
    a world are the files of which the imaging library reads both the header
    and the pixel data.  [Image.open] itself reads the header only; a file
    whose header can be read and whose pixel data cannot (a truncated file,
    on which [np.array] or [convert] raise later) is outside the model. *)
Definition Image_open (path : string) : M Image :=
  λ w, match files w !! path with
       | Some img => (Return img, w)
       | None => (Raise (lit "cannot identify image file"), w)
       end.

(** [img.save(path, 'PNG')]: a lossless store. *)
Definition Image_save (img : Image) (path : string) : M unit :=
  λ w, if writable w path
       then (Return tt, {| files := <[path := img]> (files w);
                           writable := writable w |})
       else (Raise (lit "cannot write image file"), w).

(** ** [get_max_capacity] *)

Definition get_max_capacity (image_path : string) : M Z :=
  try_except
    (img <- Image_open image_path ;;
     let '(width, height) := size img in
     let total_pixels := width * height in
     let total_bits := total_pixels * 3 in
     let delimiter_bits := Z.of_nat (length DELIMITER) * 8 in
     let available_bits := total_bits - delimiter_bits in
     let max_chars := available_bits `div` 8 in
     ret max_chars)
    (λ e, ret 0).

(** ** [encode] *)

(** [flat_array[i] = (flat_array[i] & 0xFE) | int(bit)]; an index out of
    range raises [IndexError]. *)
Definition setitem_lsb (flat_array : list Z) (i : nat) (bit : bool) : exc (list Z) :=
  match flat_array !! i with
  | Some v => Return (<[i := Z.lor (Z.land v 0xFE) (Z.b2z bit)]> flat_array)
  | None => Raise (lit "index out of bounds")
  end.

(** [for i, bit in enumerate(binary_secret): ...], from index [i] on. *)
Fixpoint encode_loop (flat_array : list Z) (i : nat) (binary_secret : list bool)
  : exc (list Z) :=
  match binary_secret with
  | [] => Return flat_array
  | bit :: rest =>
      match setitem_lsb flat_array i bit with
      | Return flat_array' => encode_loop flat_array' (S i) rest
      | Raise e => Raise e
      end
  end.

Definition msg_too_small : list N :=
  lit "Error: Image too small to hide this message. Try a larger image or shorter text.".
Definition msg_hidden : list N :=
  lit "Message successfully hidden in image!".
Definition msg_encoding_error (e : list N) : list N :=
  lit "Error during encoding: " ++ e.

Definition encode (image_path : string) (secret_text : list N) (output_path : string)
  : M (bool * list N) :=
  try_except
    (img <- Image_open image_path ;;
     let img := if decide (mode img = "RGB") then img else convert img "RGB" in
     let img_array := np_array img in
     let original_shape := shape img_array in
     let flat_array := flatten img_array in
     let secret_text_with_delimiter := secret_text ++ DELIMITER in
     let binary_secret := _text_to_binary secret_text_with_delimiter in
     if decide (length flat_array < length binary_secret)%nat then
       ret (false, msg_too_small)
     else
       flat_array <- lift (encode_loop flat_array 0 binary_secret) ;;
       let encoded_array := reshape flat_array original_shape in
       let encoded_img := Image_fromarray (astype_uint8 encoded_array) in
       _ <- Image_save encoded_img output_path ;;
       ret (true, msg_hidden))
    (λ e, ret (false, msg_encoding_error e)).

(** ** [decode] *)

(** [str(value & 1)]. *)
Definition str_lsb (value : Z) : bool := bool_decide (Z.land value 1 = 1).

(** The loop [for i, value in enumerate(flat_array)] with the running
    [binary_message]; [Some message] is the early [return True, message],
    [None] is the loop running to its end. *)
Fixpoint decode_loop (flat_array : list Z) (binary_message : list bool)
  : option (list N) :=
  match flat_array with
  | [] => None
  | value :: rest =>
      let binary_message := binary_message ++ [str_lsb value] in
      if bool_decide (8 ≤ length binary_message)%nat
         && bool_decide (length binary_message `mod` 8 = 0)%nat then
        let extracted_text := _binary_to_text binary_message in
        if contains DELIMITER extracted_text then
          Some (split_head DELIMITER extracted_text)
        else decode_loop rest binary_message
      else decode_loop rest binary_message
  end.

Definition msg_not_found : list N :=
  lit "No hidden message found in this image. Make sure you're using an image that was encoded with this tool.".
Definition msg_decoding_error (e : list N) : list N :=
  lit "Error during decoding: " ++ e.

Definition decode (image_path : string) : M (bool * list N) :=
  try_except
    (img <- Image_open image_path ;;
     let img := if decide (mode img = "RGB") then img else convert img "RGB" in
     let img_array := np_array img in
     let flat_array := flatten img_array in
     match decode_loop flat_array [] with
     | Some message => ret (true, message)
     | None => ret (false, msg_not_found)
     end)
    (λ e, ret (false, msg_decoding_error e)).

(** Number of iterations of the loop of [decode] on a buffer: the loop
    stops at the first byte boundary where the marker shows. *)
Fixpoint decode_iterations (flat_array : list Z) (binary_message : list bool) : nat :=
  match flat_array with
  | [] => 0
  | value :: rest =>
      let binary_message := binary_message ++ [str_lsb value] in
      if bool_decide (8 ≤ length binary_message)%nat
         && bool_decide (length binary_message `mod` 8 = 0)%nat then
        if contains DELIMITER (_binary_to_text binary_message) then 1
        else S (decode_iterations rest binary_message)
      else S (decode_iterations rest binary_message)
  end.

(** ** Notions used in the statements *)

(** The 8 digits of a code point up to 255, most significant first. *)
Definition msb_first (c : N) : list bool :=
  map (λ i, N.testbit c (N.of_nat (7 - i))) (seq 0 8).

(** What one index of the loop of [_binary_to_text] adds to [text]. *)
Definition group (binary : list bool) (i : nat) : list N :=
  let byte := slice binary i (i + 8) in
  if decide (length byte = 8%nat) then [chr (int2 byte)] else [].

(** The spec's wording of [bits_to_text]: consecutive 8-bit groups in stream
    order, a shorter trailing group being dropped. *)
Definition bits_to_text_groups (binary : list bool) : list N :=
  map (λ k, chr (int2 (slice binary (8 * k) (8 * k + 8)))) (seq 0 (length binary / 8)).

(** The stream of low-order bits of a buffer. *)
Definition lsbs (flat : list Z) : list bool := str_lsb <$> flat.

(** The range of an element of a [uint8] array. *)
Definition uint8 (v : Z) : Prop := 0 ≤ v < 256.

(** The bit that the loop started at index [i] writes at index [j]. *)
Definition written (i : nat) (bits : list bool) (j : nat) : option bool :=
  if decide (i ≤ j)%nat then bits !! (j - i)%nat else None.

(** The image that [encode] stores: the mode and size of the carrier, the
    rewritten channels cast to [uint8]. *)
Definition encoded_image (img : Image) (flat' : list Z) : Image :=
  {| mode := "RGB"; size := size img; pixels := (λ v, v `mod` 256) <$> flat' |}.

(** The world after [img.save(path, 'PNG')]. *)
Definition saved (w : World) (path : string) (img : Image) : World :=
  {| files := <[path := img]> (files w); writable := writable w |}.

(** ** Worlds used in the examples *)

(** A [width] x [height] RGB image all of whose channels hold [v]. *)
Definition blank (width height v : Z) : Image :=
  {| mode := "RGB"; size := (width, height);
     pixels := replicate (Z.to_nat (width * height * 3)) v |}.

(** A world holding one image, under the path ["carrier.png"], in which
    every path can be written. *)
Definition carrier_world (img : Image) : World :=
  {| files := {[ "carrier.png" := img ]}; writable := λ _, true |}.

(** ** The upload helpers of [app.py] and [api/index.py]

    Both files define [allowed_file] and [generate_unique_filename] with
    the same text.  [str.lower] is Unicode's case mapping: it is taken as a
    parameter [lower], of which the development assumes nothing.  The random
    [str(uuid.uuid4())] is an argument of [generate_unique_filename]. *)

(** [s.rfind(sub)] for a non-empty [sub]: the index of the last occurrence,
    [None] for -1. *)
Fixpoint rfind (sub s : list N) : option nat :=
  match s with
  | [] => None
  | _ :: s' =>
      match rfind sub s' with
      | Some i => Some (S i)
      | None => if startswith sub s then Some 0%nat else None
      end
  end.

(** [s.rsplit(sep, 1)] for a non-empty [sep]: a split at the last occurrence
    of [sep], the list of [s] alone when there is none. *)
Definition rsplit1 (sep s : list N) : list (list N) :=
  match rfind sep s with
  | Some i => [take i s; drop (i + length sep) s]
  | None => [s]
  end.

(** [l[i]] for [0 <= i]; an index out of range raises [IndexError]. *)
Definition getitem {A} (l : list A) (i : nat) : exc A :=
  match l !! i with
  | Some x => Return x
  | None => Raise (lit "list index out of range")
  end.

Definition ALLOWED_EXTENSIONS : gset (list N) :=
  {[ lit "png"; lit "jpg"; lit "jpeg" ]}.

Section Upload.

Variable lower : list N → list N.

Definition allowed_file (filename : list N) : exc bool :=
  if contains (lit ".") filename then
    match getitem (rsplit1 (lit ".") filename) 1 with
    | Return ext => Return (bool_decide (lower ext ∈ ALLOWED_EXTENSIONS))
    | Raise e => Raise e
    end
  else Return false.

Definition generate_unique_filename (uuid4 original_filename : list N) : exc (list N) :=
  match getitem (rsplit1 (lit ".") original_filename) 1 with
  | Return ext =>
      let ext := lower ext in
      let unique_id := take 8 uuid4 in
      Return (unique_id ++ lit "." ++ ext)
  | Raise e => Raise e
  end.

End Upload.

(** The name under which the route [encode] stores the encoded image:
    [f"encoded_{unique_filename.rsplit('.', 1)[0]}.png"]. *)
Definition output_filename (unique_filename : list N) : exc (list N) :=
  match getitem (rsplit1 (lit ".") unique_filename) 0 with
  | Return stem => Return (lit "encoded_" ++ stem ++ lit ".png")
  | Raise e => Raise e
  end.

(** [str.lower] on ASCII text, to run the helpers in the examples. *)
Definition ascii_lower (s : list N) : list N :=
  map (λ c, if bool_decide (65 ≤ c ≤ 90)%N then (c + 32)%N else c) s.

(** * Properties *)

(** ** Binary digits *)

Section Bits.

Implicit Types (b : bool) (l : list bool) (n c : N) (p : positive).

Lemma int2_acc l : ∀ a : N,
  fold_left (λ acc b, 2 * acc + N.b2n b)%N l a = (a * 2 ^ N.of_nat (length l) + int2 l)%N.
Proof.
  unfold int2. induction l as [|b l IH]; intros a; simpl.
  - lia.
  - rewrite IH, (IH (2 * 0 + N.b2n b)%N).
    rewrite Nat2N.inj_succ, N.pow_succ_r'. lia.
Qed.

Lemma int2_app l1 l2 :
  int2 (l1 ++ l2) = (int2 l1 * 2 ^ N.of_nat (length l2) + int2 l2)%N.
Proof. unfold int2 at 1. rewrite fold_left_app. apply int2_acc. Qed.

Lemma int2_cons b l :
  int2 (b :: l) = (N.b2n b * 2 ^ N.of_nat (length l) + int2 l)%N.
Proof. unfold int2 at 1. simpl. rewrite int2_acc. lia. Qed.

Lemma int2_replicate_false k : int2 (replicate k false) = 0%N.
Proof. induction k as [|k IH]; [done|]. simpl. rewrite int2_cons, IH. simpl. lia. Qed.

Lemma int2_bound l : (int2 l < 2 ^ N.of_nat (length l))%N.
Proof.
  induction l as [|b l IH]; [simpl; unfold int2; simpl; lia|].
  rewrite int2_cons. simpl length. rewrite Nat2N.inj_succ, N.pow_succ_r'.
  destruct b; simpl N.b2n; lia.
Qed.

Lemma bin_pos_acc p : ∀ acc, bin_pos p acc = bin_pos p [] ++ acc.
Proof.
  induction p as [q IH|q IH|]; intros acc; simpl; [| |done].
  - rewrite IH, (IH [true]), <- app_assoc. done.
  - rewrite IH, (IH [false]), <- app_assoc. done.
Qed.

Lemma length_bin_pos p : length (bin_pos p []) = Pos.size_nat p.
Proof.
  induction p as [q IH|q IH|]; simpl; [| |done];
    rewrite bin_pos_acc, length_app, IH; simpl; lia.
Qed.

Lemma int2_bin_pos p : int2 (bin_pos p []) = Npos p.
Proof.
  induction p as [q IH|q IH|]; simpl; [| |done];
    rewrite bin_pos_acc, int2_app, IH; simpl; unfold int2; simpl; lia.
Qed.

Lemma int2_bin n : int2 (bin n) = n.
Proof. destruct n; [done|]. apply int2_bin_pos. Qed.

(** [int(format(n, '08b'), 2) == n], for every [n]. *)
Lemma int2_format_08b n : int2 (format_08b n) = n.
Proof.
  unfold format_08b. rewrite int2_app, int2_replicate_false, int2_bin. lia.
Qed.

Lemma size_nat_le p : ∀ k : nat, (Pos.size_nat p ≤ k)%nat ↔ (Npos p < 2 ^ N.of_nat k)%N.
Proof.
  induction p as [q IH|q IH|]; intros [|k]; simpl Pos.size_nat;
    rewrite ?Nat2N.inj_succ, ?N.pow_succ_r'; simpl (2 ^ N.of_nat 0)%N;
    try (specialize (IH k)); lia.
Qed.

Lemma length_bin_le n : (length (bin n) ≤ 8)%nat ↔ (n ≤ 255)%N.
Proof.
  destruct n as [|p]; simpl; [lia|].
  rewrite length_bin_pos, size_nat_le. simpl. lia.
Qed.

Lemma length_format_08b_ge n : (8 ≤ length (format_08b n))%nat.
Proof. unfold format_08b. rewrite length_app, length_replicate. lia. Qed.

(** Exactly 8 digits when the code point is at most 255... *)
Lemma length_format_08b n : (n ≤ 255)%N → length (format_08b n) = 8%nat.
Proof.
  intros H%length_bin_le. unfold format_08b.
  rewrite length_app, length_replicate. lia.
Qed.

(** ... and more than 8 digits otherwise. *)
Lemma length_format_08b_gt n : (255 < n)%N → (8 < length (format_08b n))%nat.
Proof.
  intros H. unfold format_08b. rewrite length_app, length_replicate.
  pose proof (length_bin_le n). lia.
Qed.

Lemma format_08b_msb_first c : (c ≤ 255)%N → format_08b c = msb_first c.
Proof.
  intros H.
  assert (Hall : forallb (λ k, bool_decide (format_08b (N.of_nat k) = msb_first (N.of_nat k)))
                   (seq 0 256) = true) by (vm_compute; reflexivity).
  rewrite forallb_forall in Hall.
  assert (Hin : In (N.to_nat c) (seq 0 256)) by (apply in_seq; lia).
  apply Hall in Hin. rewrite N2Nat.id in Hin.
  by apply bool_decide_eq_true in Hin.
Qed.

End Bits.

(** ** Text to bits and back *)

Section Conversion.

Implicit Types (text : list N) (binary : list bool).

Lemma text_to_binary_cons c text :
  _text_to_binary (c :: text) = format_08b c ++ _text_to_binary text.
Proof. reflexivity. Qed.

Lemma text_to_binary_app text1 text2 :
  _text_to_binary (text1 ++ text2) = _text_to_binary text1 ++ _text_to_binary text2.
Proof. unfold _text_to_binary. by rewrite map_app, concat_app. Qed.

Lemma length_text_to_binary_ge text :
  (8 * length text ≤ length (_text_to_binary text))%nat.
Proof.
  induction text as [|c text IH]; [done|].
  rewrite text_to_binary_cons, length_app. simpl length.
  pose proof (length_format_08b_ge c). lia.
Qed.

Lemma length_text_to_binary text :
  Forall (λ c, c ≤ 255)%N text → length (_text_to_binary text) = (8 * length text)%nat.
Proof.
  induction 1 as [|c text Hc _ IH]; [done|].
  rewrite text_to_binary_cons, length_app, length_format_08b, IH by done.
  simpl length. lia.
Qed.

Lemma length_text_to_binary_iff text :
  length (_text_to_binary text) = (8 * length text)%nat ↔ Forall (λ c, c ≤ 255)%N text.
Proof.
  split; [|apply length_text_to_binary].
  induction text as [|c text IH]; [constructor|].
  rewrite text_to_binary_cons, length_app. simpl length. intros H.
  pose proof (length_text_to_binary_ge text).
  pose proof (length_format_08b_ge c).
  constructor; [|apply IH; lia].
  destruct (decide (c ≤ 255)%N) as [|Hgt]; [done|].
  pose proof (length_format_08b_gt c). lia.
Qed.

Lemma binary_to_text_fold binary idxs : ∀ acc,
  fold_left
    (λ text i,
       let byte := slice binary i (i + 8) in
       if decide (length byte = 8%nat) then text ++ [chr (int2 byte)] else text)
    idxs acc
  = acc ++ concat (map (group binary) idxs).
Proof.
  induction idxs as [|i idxs IH]; intros acc; simpl.
  - by rewrite app_nil_r.
  - rewrite IH. unfold group at 2. simpl.
    destruct (decide _); [by rewrite <- app_assoc|done].
Qed.

Lemma binary_to_text_groups binary :
  _binary_to_text binary
  = concat (map (λ k, group binary (k * 8)) (seq 0 ((length binary + 7) / 8))).
Proof.
  unfold _binary_to_text. rewrite binary_to_text_fold, app_nil_l.
  unfold range. rewrite map_map.
  by replace (length binary - 0 + 8 - 1)%nat with (length binary + 7)%nat by lia.
Qed.

Lemma slice_0 {A} (l : list A) j : slice l 0 j = take j l.
Proof. unfold slice. by rewrite Nat.sub_0_r. Qed.

Lemma slice_app_r {A} (l1 l2 : list A) i :
  slice (l1 ++ l2) (length l1 + i) (length l1 + i + 8) = slice l2 i (i + 8).
Proof.
  unfold slice. rewrite drop_app_add'; [|done].
  f_equal. lia.
Qed.

Lemma binary_to_text_short binary :
  (length binary < 8)%nat → _binary_to_text binary = [].
Proof.
  intros H. rewrite binary_to_text_groups.
  destruct binary as [|b binary]; [done|].
  replace ((length (b :: binary) + 7) / 8)%nat with 1%nat
    by (simpl length in *; apply Nat.div_unique with (length binary); lia).
  simpl. unfold group. rewrite slice_0, app_nil_r.
  destruct (decide _) as [Hl|]; [|done].
  rewrite length_take in Hl. lia.
Qed.

Lemma binary_to_text_cons byte binary :
  length byte = 8%nat →
  _binary_to_text (byte ++ binary) = chr (int2 byte) :: _binary_to_text binary.
Proof.
  intros H. rewrite !binary_to_text_groups, length_app, H.
  replace ((8 + length binary + 7) / 8)%nat with (S ((length binary + 7) / 8)).
  2:{ replace (8 + length binary + 7)%nat with (1 * 8 + (length binary + 7))%nat by lia.
      by rewrite Nat.div_add_l. }
  rewrite <- cons_seq, <- seq_shift, map_cons, map_map, concat_cons.
  assert (group (byte ++ binary) (0 * 8) = [chr (int2 byte)]) as ->.
  { unfold group. change (0 * 8)%nat with 0%nat.
    rewrite slice_0, take_app_length' by done. by rewrite decide_True. }
  cbn [app]. do 2 f_equal.
  apply map_ext. intros k. unfold group.
  replace (S k * 8)%nat with (length byte + k * 8)%nat by lia.
  by rewrite slice_app_r.
Qed.

Lemma binary_to_text_spec_aux : ∀ (q : nat) binary,
  (length binary / 8)%nat = q → _binary_to_text binary = bits_to_text_groups binary.
Proof.
  unfold bits_to_text_groups.
  induction q as [|q IH]; intros binary Hq; rewrite Hq.
  - apply binary_to_text_short.
    destruct (decide (length binary < 8)%nat) as [|Hge]; [done|].
    assert (1 ≤ length binary / 8)%nat; [|lia].
    apply Nat.div_le_lower_bound; lia.
  - assert (Hlen : (8 ≤ length binary)%nat).
    { destruct (decide (8 ≤ length binary)%nat) as [|Hlt]; [done|].
      rewrite Nat.div_small in Hq by lia. done. }
    rewrite <- (take_drop 8 binary) at 1.
    rewrite binary_to_text_cons by (rewrite length_take; lia).
    rewrite <- cons_seq, <- seq_shift, map_cons, map_map. f_equal.
    assert (Hq' : (length (drop 8 binary) / 8)%nat = q).
    { rewrite length_drop.
      replace (length binary) with (1 * 8 + (length binary - 8))%nat in Hq by lia.
      rewrite Nat.div_add_l in Hq by done. lia. }
    rewrite IH, Hq' by done.
    apply map_ext. intros k. do 2 f_equal.
    unfold slice. rewrite drop_drop. f_equal; [lia|f_equal; lia].
Qed.

Lemma binary_to_text_spec binary :
  _binary_to_text binary = bits_to_text_groups binary.
Proof. by apply binary_to_text_spec_aux with (length binary / 8)%nat. Qed.

(** Whatever the bits, the characters of the result are below 256. *)
Lemma binary_to_text_range binary :
  Forall (λ c, c ≤ 255)%N (_binary_to_text binary).
Proof.
  rewrite binary_to_text_spec. unfold bits_to_text_groups.
  apply Forall_forall. intros c Hc.
  apply list_elem_of_In, in_map_iff in Hc as [k [<- _]].
  unfold chr. pose proof (int2_bound (slice binary (8 * k) (8 * k + 8))) as Hb.
  assert (length (slice binary (8 * k) (8 * k + 8)) ≤ 8)%nat as Hl.
  { unfold slice. rewrite length_take. lia. }
  assert (2 ^ N.of_nat (length (slice binary (8 * k) (8 * k + 8))) ≤ 2 ^ 8)%N.
  { apply N.pow_le_mono_r; lia. }
  change (2 ^ 8)%N with 256%N in *. lia.
Qed.

(** [_binary_to_text] undoes [_text_to_binary] on 8-bit text. *)
Lemma binary_to_text_to_binary text :
  Forall (λ c, c ≤ 255)%N text → _binary_to_text (_text_to_binary text) = text.
Proof.
  induction 1 as [|c text Hc _ IH]; [done|].
  rewrite text_to_binary_cons, binary_to_text_cons by by apply length_format_08b.
  by rewrite IH, int2_format_08b.
Qed.

(** A whole number of characters of the bits of an 8-bit text. *)
Lemma take_text_to_binary text (m : nat) :
  Forall (λ c, c ≤ 255)%N text →
  take (8 * m) (_text_to_binary text) = _text_to_binary (take m text).
Proof.
  intros H. revert m. induction H as [|c text Hc _ IH]; intros m.
  - rewrite take_nil. change (_text_to_binary []) with (@nil bool). by rewrite take_nil.
  - destruct m as [|m]; [done|].
    rewrite text_to_binary_cons. simpl take at 2. rewrite text_to_binary_cons.
    rewrite take_app_ge by (rewrite length_format_08b; [lia|done]).
    rewrite length_format_08b by done. f_equal.
    rewrite <- IH. f_equal. lia.
Qed.

End Conversion.

(** ** Searching for the marker *)

Section Search.

Implicit Types (sub s r : list N).

Lemma DELIMITER_eq : DELIMITER = [60; 60; 69; 78; 68; 62; 62]%N.
Proof. reflexivity. Qed.

Lemma startswith_spec sub : ∀ s, startswith sub s = true ↔ ∃ r, s = sub ++ r.
Proof.
  induction sub as [|a sub IH]; intros s; simpl.
  - split; [intros _; by exists s|done].
  - destruct s as [|b s].
    + split; [done|intros [r Hr]; done].
    + rewrite andb_true_iff, N.eqb_eq, IH. split.
      * intros [-> [r ->]]. by exists r.
      * intros [r Hr]. simplify_eq. eauto.
Qed.

Lemma startswith_self sub r : startswith sub (sub ++ r) = true.
Proof. apply startswith_spec. by exists r. Qed.

Lemma startswith_take sub s k :
  startswith sub (take k s) = true → startswith sub s = true.
Proof.
  rewrite !startswith_spec. intros [r Hr].
  exists (r ++ drop k s). by rewrite app_assoc, <- Hr, take_drop.
Qed.

Lemma startswith_app sub s r :
  startswith sub s = true → startswith sub (s ++ r) = true.
Proof.
  rewrite !startswith_spec. intros [r' ->]. exists (r' ++ r). by rewrite app_assoc.
Qed.

Lemma startswith_length sub s : startswith sub s = true → (length sub ≤ length s)%nat.
Proof. intros [r ->]%startswith_spec. rewrite length_app. lia. Qed.

(** [find] returns the first position at which [sub] starts. *)
Lemma find_Some sub : ∀ s i,
  find sub s = Some i ↔
  startswith sub (drop i s) = true ∧ (i ≤ length s)%nat ∧
  ∀ j, (j < i)%nat → startswith sub (drop j s) = false.
Proof.
  induction s as [|b s IH]; intros i.
  - simpl find. destruct (startswith sub []) eqn:E.
    + split.
      * intros [= <-]. rewrite drop_nil. simpl. split_and!; [done|lia|lia].
      * intros (_ & Hi & _). simpl in Hi. by replace i with 0%nat by lia.
    + split; [done|]. rewrite drop_nil. intros (? & _); congruence.
  - cbn [find]. destruct (startswith sub (b :: s)) eqn:E.
    + split.
      * intros [= <-]. split_and!; [done|simpl; lia|lia].
      * intros (_ & _ & Hj). destruct i as [|i]; [done|].
        specialize (Hj 0%nat). simpl in Hj. rewrite E in Hj. by specialize (Hj ltac:(lia)).
    + destruct (find sub s) as [i'|] eqn:Ef; simpl.
      * destruct (proj1 (IH i') eq_refl) as (H1 & H2 & H3). split.
        -- intros [= <-]. split_and!; [done|simpl; lia|].
           intros [|j] Hj; [done|]. apply H3. lia.
        -- intros (H1' & H2' & H3'). destruct i as [|i]; [simpl in H1'; congruence|].
           f_equal. destruct (Nat.lt_trichotomy i i') as [Hlt|[->|Hgt]]; [|done|].
           ++ specialize (H3 i Hlt). simpl in H1'. congruence.
           ++ specialize (H3' (S i') ltac:(lia)). simpl in H3'. congruence.
      * split; [done|]. intros (H1' & H2' & H3').
        destruct i as [|i]; [simpl in H1'; congruence|].
        assert (None = Some i) as Hs; [|done].
        apply IH. split_and!; [done|simpl in H2'; lia|].
        intros j Hj. apply (H3' (S j)). lia.
Qed.

Lemma find_None sub : ∀ s,
  find sub s = None ↔ ∀ j, startswith sub (drop j s) = false.
Proof.
  induction s as [|b s IH].
  - simpl find. destruct (startswith sub []) eqn:E.
    + split; [done|]. intros H. specialize (H 0%nat). simpl in H. congruence.
    + split; [|done]. intros _ j. by rewrite drop_nil.
  - cbn [find]. destruct (startswith sub (b :: s)) eqn:E.
    + split; [done|]. intros H. specialize (H 0%nat). simpl in H. congruence.
    + destruct (find sub s) as [i'|] eqn:Ef; simpl.
      * split; [done|]. intros H.
        assert (Some i' = None) as Hs; [|done].
        apply IH. intros j. apply (H (S j)).
      * split; [|done]. intros _ [|j]; [done|]. simpl. by apply IH.
Qed.

Lemma contains_false sub s :
  contains sub s = false ↔ ∀ j, startswith sub (drop j s) = false.
Proof.
  unfold contains. rewrite <- find_None. by destruct (find sub s).
Qed.

Lemma contains_true sub s :
  contains sub s = true ↔ ∃ l r, s = l ++ sub ++ r.
Proof.
  unfold contains. destruct (find sub s) as [i|] eqn:E.
  - split; [intros _|done].
    apply find_Some in E as ([r Hr]%startswith_spec & _ & _).
    exists (take i s), r. by rewrite <- Hr, take_drop.
  - split; [done|]. intros (l & r & ->).
    rewrite find_None in E. specialize (E (length l)).
    by rewrite drop_app_length, startswith_self in E.
Qed.

(** A text with the marker: [split(DELIMITER)[0]] is a prefix that is
    followed by the marker and holds no earlier occurrence. *)
Lemma split_head_contains sub s :
  contains sub s = true →
  ∃ r, s = split_head sub s ++ sub ++ r ∧
       ∀ j, (j < length (split_head sub s))%nat → startswith sub (drop j s) = false.
Proof.
  unfold contains, split_head. destruct (find sub s) as [i|] eqn:E; [intros _|done].
  apply find_Some in E as ([r Hr]%startswith_spec & Hi & Hj).
  exists r. rewrite <- Hr, take_drop. split; [done|].
  intros j. rewrite length_take. intros ?. apply Hj. lia.
Qed.

(** The first occurrence of [sub] in [P ++ sub] is at the end of [P] when
    [sub] starts at no position of [P]. *)
Lemma find_app_end sub P :
  (∀ j, (j < length P)%nat → startswith sub (drop j (P ++ sub)) = false) →
  find sub (P ++ sub) = Some (length P).
Proof.
  intros H. apply find_Some. split_and!; [|rewrite length_app; lia|done].
  rewrite drop_app_length. rewrite <- (app_nil_r sub) at 2. apply startswith_self.
Qed.

Lemma contains_take_false sub P (k : nat) :
  (∀ j, (j < length P)%nat → startswith sub (drop j (P ++ sub)) = false) →
  (k < length P + length sub)%nat →
  contains sub (take k (P ++ sub)) = false.
Proof.
  intros H Hk. apply contains_false. intros j.
  destruct (startswith sub (drop j (take k (P ++ sub)))) eqn:E; [|done].
  pose proof (startswith_length _ _ E) as Hl.
  rewrite length_drop, length_take, length_app in Hl.
  destruct (decide (j ≤ k)%nat) as [Hjk|Hjk].
  - replace k with (j + (k - j))%nat in E by lia.
    rewrite <- take_drop_commute in E. apply startswith_take in E.
    rewrite H in E by lia. done.
  - destruct sub; [|simpl in Hl; lia].
    specialize (H k ltac:(simpl in Hk; lia)). done.
Qed.

(** The marker has no proper border: it cannot start inside a text that is
    free of it and run over into a marker that follows this text. *)
Lemma delimiter_no_overlap T :
  contains DELIMITER T = false →
  ∀ j, (j < length T)%nat → startswith DELIMITER (drop j (T ++ DELIMITER)) = false.
Proof.
  intros HT j Hj. rewrite contains_false in HT. specialize (HT j).
  rewrite drop_app_le by lia.
  assert (Hm : (0 < length (drop j T))%nat) by (rewrite length_drop; lia).
  destruct (startswith DELIMITER (drop j T ++ DELIMITER)) eqn:E; [|done].
  apply startswith_spec in E as [r Hr]. rewrite DELIMITER_eq in *.
  destruct (drop j T) as [|a1 [|a2 [|a3 [|a4 [|a5 [|a6 [|a7 m]]]]]]];
    simpl in Hm; [lia|simplify_eq/=..].
Qed.

End Search.

(** ** The loop of [decode] *)

Section DecodeLoop.

Implicit Types (flat pre rest : list Z) (acc : list bool).

Lemma decode_loop_cons v rest acc :
  decode_loop (v :: rest) acc =
  if bool_decide (8 ≤ length (acc ++ [str_lsb v]))%nat
     && bool_decide (length (acc ++ [str_lsb v]) `mod` 8 = 0)%nat then
    if contains DELIMITER (_binary_to_text (acc ++ [str_lsb v])) then
      Some (split_head DELIMITER (_binary_to_text (acc ++ [str_lsb v])))
    else decode_loop rest (acc ++ [str_lsb v])
  else decode_loop rest (acc ++ [str_lsb v]).
Proof. reflexivity. Qed.

Lemma decode_iterations_cons v rest acc :
  decode_iterations (v :: rest) acc =
  if bool_decide (8 ≤ length (acc ++ [str_lsb v]))%nat
     && bool_decide (length (acc ++ [str_lsb v]) `mod` 8 = 0)%nat then
    if contains DELIMITER (_binary_to_text (acc ++ [str_lsb v])) then 1%nat
    else S (decode_iterations rest (acc ++ [str_lsb v]))
  else S (decode_iterations rest (acc ++ [str_lsb v])).
Proof. reflexivity. Qed.

(** The loop never runs more often than the buffer is long. *)
Lemma decode_iterations_le flat : ∀ acc,
  (decode_iterations flat acc ≤ length flat)%nat.
Proof.
  induction flat as [|v rest IH]; intros acc; [done|].
  rewrite decode_iterations_cons. simpl length.
  specialize (IH (acc ++ [str_lsb v])).
  repeat case_match; lia.
Qed.

(** A stretch of the buffer over which no byte boundary shows the marker is
    passed over. *)
Lemma decode_loop_miss pre : ∀ rest acc,
  (∀ k, (0 < k ≤ length pre)%nat → ((length acc + k) `mod` 8 = 0)%nat →
        contains DELIMITER (_binary_to_text (acc ++ lsbs (take k pre))) = false) →
  decode_loop (pre ++ rest) acc = decode_loop rest (acc ++ lsbs pre) ∧
  decode_iterations (pre ++ rest) acc
  = (length pre + decode_iterations rest (acc ++ lsbs pre))%nat.
Proof.
  induction pre as [|v pre IH]; intros rest acc H.
  - unfold lsbs. simpl. by rewrite app_nil_r.
  - rewrite <- app_comm_cons, decode_loop_cons, decode_iterations_cons.
    assert (Hstep : (if bool_decide (8 ≤ length (acc ++ [str_lsb v]))%nat
                        && bool_decide (length (acc ++ [str_lsb v]) `mod` 8 = 0)%nat
                     then contains DELIMITER (_binary_to_text (acc ++ [str_lsb v]))
                     else false) = false).
    { destruct (bool_decide (8 ≤ _)%nat && _) eqn:E; [|done].
      apply andb_true_iff in E as [_ E%bool_decide_eq_true].
      rewrite length_app in E. apply (H 1%nat); [simpl; lia|done]. }
    destruct (IH rest (acc ++ [str_lsb v])) as [IH1 IH2].
    { intros k Hk Hmod. rewrite <- app_assoc. apply (H (S k)); [simpl; lia|].
      rewrite length_app in Hmod. simpl in Hmod.
      by replace (length acc + S k)%nat with (length acc + 1 + k)%nat by lia. }
    rewrite <- !app_assoc in IH1, IH2.
    change (lsbs (v :: pre)) with ([str_lsb v] ++ lsbs pre).
    change (length (v :: pre)) with (S (length pre)).
    set (c := bool_decide (8 ≤ _)%nat && _) in *.
    destruct c; [rewrite Hstep|]; rewrite IH1, IH2; split; first [done|lia].
Qed.

Lemma delimiter_range : Forall (λ c, c ≤ 255)%N DELIMITER.
Proof. rewrite DELIMITER_eq. repeat constructor; lia. Qed.

(** A buffer whose low-order bits begin with the bits of [P] and of the
    marker decodes to [P], when [P] is 8-bit text and the marker starts at no
    position of [P]: the loop stops at the last bit of the marker. *)
Lemma decode_loop_found flat P tail :
  Forall (λ c, c ≤ 255)%N P →
  (∀ j, (j < length P)%nat → startswith DELIMITER (drop j (P ++ DELIMITER)) = false) →
  lsbs flat = _text_to_binary (P ++ DELIMITER) ++ tail →
  decode_loop flat [] = Some P ∧
  decode_iterations flat [] = (8 * (length P + 7))%nat.
Proof.
  intros HP Hfirst Hflat.
  assert (HPD : Forall (λ c, c ≤ 255)%N (P ++ DELIMITER)).
  { apply Forall_app. split; [done|apply delimiter_range]. }
  pose proof (length_text_to_binary _ HPD) as HL.
  rewrite length_app in HL. change (length DELIMITER) with 7%nat in HL.
  set (bits := _text_to_binary (P ++ DELIMITER)) in *.
  set (L := (8 * (length P + 7))%nat) in *.
  assert (Hlen : (L ≤ length flat)%nat).
  { apply (f_equal length) in Hflat. unfold lsbs in Hflat.
    rewrite length_fmap, length_app in Hflat. lia. }
  destruct (lookup_lt_is_Some_2 flat (L - 1)) as [v Hv]; [lia|].
  assert (Htake : ∀ k, (k ≤ L)%nat → lsbs (take k flat) = take k bits).
  { intros k Hk. unfold lsbs. rewrite fmap_take. fold (lsbs flat).
    rewrite Hflat, take_app_le by lia. done. }
  rewrite <- (take_drop_middle flat (L - 1) v Hv).
  destruct (decode_loop_miss (take (L - 1) flat) (v :: drop (S (L - 1)) flat) [])
    as [-> ->].
  { intros k Hk Hmod. rewrite length_take in Hk.
    rewrite app_nil_l, take_take, Htake by lia.
    replace (k `min` (L - 1))%nat with k by lia.
    change (length [] + k)%nat with k in Hmod.
    pose proof (Nat.div_mod_eq k 8) as Hdiv.
    rewrite Hmod, Nat.add_0_r in Hdiv. rewrite Hdiv.
    unfold bits. rewrite take_text_to_binary, binary_to_text_to_binary
      by (try apply Forall_take; done).
    apply contains_take_false; [done|].
    change (length DELIMITER) with 7%nat. lia. }
  rewrite decode_loop_cons, decode_iterations_cons, app_nil_l.
  assert (Hbits : lsbs (take (L - 1) flat) ++ [str_lsb v] = bits).
  { change [str_lsb v] with (lsbs [v]). unfold lsbs. rewrite <- fmap_app.
    rewrite <- take_S_r by done. fold (lsbs (take (S (L - 1)) flat)).
    rewrite Htake by lia. apply take_ge. lia. }
  rewrite Hbits, HL.
  rewrite andb_true_intro.
  2:{ split; apply bool_decide_eq_true_2; [lia|].
      fold L. unfold L. by rewrite Nat.mul_comm, Nat.Div0.mod_mul. }
  unfold bits. rewrite binary_to_text_to_binary by done.
  unfold contains, split_head. rewrite find_app_end by done.
  rewrite take_app_length, length_take. split; [done|lia].
Qed.

(** A buffer none of whose byte boundaries shows the marker is scanned to
    its end. *)
Lemma decode_loop_exhausted flat :
  (∀ k, (8 * k ≤ length flat)%nat →
        contains DELIMITER (_binary_to_text (take (8 * k) (lsbs flat))) = false) →
  decode_loop flat [] = None ∧ decode_iterations flat [] = length flat.
Proof.
  intros H.
  destruct (decode_loop_miss flat [] []) as [H1 H2].
  { intros k Hk Hmod. change (length [] + k)%nat with k in Hmod.
    pose proof (Nat.div_mod_eq k 8) as Hdiv.
    rewrite Hmod, Nat.add_0_r in Hdiv.
    rewrite app_nil_l. unfold lsbs. rewrite fmap_take. fold (lsbs flat).
    rewrite Hdiv. apply H. lia. }
  rewrite app_nil_r in H1, H2. rewrite H1, H2. simpl. split; [done|lia].
Qed.

End DecodeLoop.

(** ** Low-order bits *)

Section LowBit.

Lemma str_lsb_testbit v : str_lsb v = Z.testbit v 0.
Proof.
  assert (H : Z.land v 1 = Z.b2z (Z.testbit v 0)).
  { rewrite Z.bit0_mod. apply (Z.land_ones v 1). lia. }
  unfold str_lsb. rewrite H. by destruct (Z.testbit v 0).
Qed.

Lemma str_lsb_mod_256 v : str_lsb (v `mod` 256) = str_lsb v.
Proof.
  rewrite !str_lsb_testbit.
  apply (Z.mod_pow2_bits_low v 8 0). lia.
Qed.

Lemma str_lsb_set v (bit : bool) :
  str_lsb (Z.lor (Z.land v 0xFE) (Z.b2z bit)) = bit.
Proof.
  rewrite str_lsb_testbit, Z.lor_spec, Z.land_spec, Z.b2z_bit0.
  change (Z.testbit 254 0) with false. by rewrite andb_false_r.
Qed.

Lemma testbit_b2z_high (bit : bool) n : 0 < n → Z.testbit (Z.b2z bit) n = false.
Proof.
  intros Hn. destruct bit; simpl.
  - apply Z.bits_above_log2; simpl; lia.
  - apply Z.bits_0.
Qed.

(** Only bit 0 changes. *)
Lemma high_bits_set v (bit : bool) :
  Z.land (Z.lor (Z.land v 0xFE) (Z.b2z bit)) 0xFE = Z.land v 0xFE.
Proof.
  apply Z.bits_inj'. intros n Hn.
  rewrite !Z.land_spec, Z.lor_spec, Z.land_spec.
  destruct (decide (n = 0)) as [->|Hn0].
  - change (Z.testbit 254 0) with false. by rewrite !andb_false_r.
  - rewrite testbit_b2z_high by lia. rewrite orb_false_r.
    by destruct (Z.testbit v n), (Z.testbit 254 n).
Qed.

(** The new value of a [uint8] channel is a [uint8]. *)
Lemma uint8_set v (bit : bool) : uint8 v → uint8 (Z.lor (Z.land v 0xFE) (Z.b2z bit)).
Proof.
  intros Hv.
  assert (Hall : forallb (λ k, forallb (λ b,
              bool_decide (uint8 (Z.lor (Z.land (Z.of_nat k) 0xFE) (Z.b2z b))))
              [true; false]) (seq 0 256) = true) by (vm_compute; reflexivity).
  rewrite forallb_forall in Hall.
  assert (Hin : In (Z.to_nat v) (seq 0 256)) by (apply in_seq; unfold uint8 in Hv; lia).
  apply Hall in Hin. rewrite Z2Nat.id in Hin by (unfold uint8 in Hv; lia).
  rewrite forallb_forall in Hin. specialize (Hin bit).
  apply bool_decide_eq_true in Hin; [done|]. destruct bit; simpl; auto.
Qed.

End LowBit.

(** ** The loop of [encode] *)

Section EncodeLoop.

Implicit Types (flat : list Z) (bits : list bool).

(** When the bits fit, the loop raises nothing, keeps the length of the
    buffer and rewrites exactly the channels facing a bit. *)
Lemma encode_loop_spec bits : ∀ flat i,
  (i + length bits ≤ length flat)%nat →
  ∃ flat',
    encode_loop flat i bits = Return flat' ∧
    length flat' = length flat ∧
    ∀ j v, flat !! j = Some v →
      flat' !! j = Some (match written i bits j with
                         | Some bit => Z.lor (Z.land v 0xFE) (Z.b2z bit)
                         | None => v
                         end).
Proof.
  induction bits as [|bit bits IH]; intros flat i Hlen.
  - exists flat. split_and!; [done..|].
    intros j v Hj. unfold written. case_decide; by rewrite ?lookup_nil.
  - simpl in Hlen. cbn [encode_loop]. unfold setitem_lsb.
    destruct (lookup_lt_is_Some_2 flat i) as [v0 Hv0]; [lia|]. rewrite Hv0.
    set (x := Z.lor (Z.land v0 254) (Z.b2z bit)).
    destruct (IH (<[i:=x]> flat) (S i)) as (flat' & Hrun & Hl & Hget).
    { rewrite length_insert. lia. }
    exists flat'. rewrite length_insert in Hl. split_and!; [done..|].
    intros j v Hj. unfold written in *.
    destruct (decide (j = i)) as [->|Hne].
    + rewrite (Hget i x) by (apply list_lookup_insert_eq; lia).
      rewrite decide_False by lia. rewrite decide_True by lia.
      rewrite Nat.sub_diag. simpl. subst x. congruence.
    + rewrite (Hget j v) by (by rewrite list_lookup_insert_ne).
      destruct (decide (i ≤ j)%nat).
      * rewrite decide_True by lia.
        replace (j - i)%nat with (S (j - S i)) by lia. done.
      * by rewrite decide_False by lia.
Qed.

(** The low-order bits of the stored buffer: the bits written, then those
    of the rest of the carrier. *)
Lemma lsbs_encoded flat flat' bits :
  (length bits ≤ length flat)%nat →
  length flat' = length flat →
  (∀ j v, flat !! j = Some v →
     flat' !! j = Some (match written 0 bits j with
                        | Some bit => Z.lor (Z.land v 0xFE) (Z.b2z bit)
                        | None => v
                        end)) →
  lsbs ((λ v, v `mod` 256) <$> flat') = bits ++ lsbs (drop (length bits) flat).
Proof.
  intros Hlen Hl Hget. apply list_eq. intros j. unfold lsbs.
  rewrite !list_lookup_fmap.
  destruct (flat !! j) as [v|] eqn:Hj.
  - rewrite (Hget j v Hj). unfold written. rewrite decide_True by lia.
    rewrite Nat.sub_0_r. simpl. rewrite str_lsb_mod_256.
    destruct (bits !! j) as [bit|] eqn:Hb.
    + rewrite str_lsb_set. rewrite lookup_app_l by (by eapply lookup_lt_Some).
      done.
    + apply lookup_ge_None in Hb.
      rewrite lookup_app_r, list_lookup_fmap, lookup_drop by done.
      replace (length bits + (j - length bits))%nat with j by lia.
      by rewrite Hj.
  - apply lookup_ge_None in Hj.
    rewrite (proj2 (lookup_ge_None flat' j)) by lia. simpl.
    symmetry. apply lookup_ge_None.
    rewrite length_app, length_fmap, length_drop. lia.
Qed.

End EncodeLoop.

(** ** The three methods, run in a world *)

Section Runs.

Implicit Types (w : World) (img : Image).

Lemma get_max_capacity_run w image_path img :
  files w !! image_path = Some img →
  get_max_capacity image_path w
  = (Return ((fst (size img) * snd (size img) * 3 - 56) `div` 8), w).
Proof.
  intros H. unfold get_max_capacity, try_except, bind, Image_open. rewrite H.
  by destruct (size img).
Qed.

Lemma get_max_capacity_fault w image_path :
  files w !! image_path = None → get_max_capacity image_path w = (Return 0, w).
Proof.
  intros H. unfold get_max_capacity, try_except, bind, Image_open. by rewrite H.
Qed.

Lemma encode_run w image_path secret_text output_path img :
  files w !! image_path = Some img →
  encode image_path secret_text output_path w =
  let binary_secret := _text_to_binary (secret_text ++ DELIMITER) in
  if decide (length (pixels img) < length binary_secret)%nat then
    (Return (false, msg_too_small), w)
  else
    match encode_loop (pixels img) 0 binary_secret with
    | Return flat' =>
        if writable w output_path
        then (Return (true, msg_hidden), saved w output_path (encoded_image img flat'))
        else (Return (false, msg_encoding_error (lit "cannot write image file")), w)
    | Raise e => (Return (false, msg_encoding_error e), w)
    end.
Proof.
  intros H. unfold encode, try_except, bind, Image_open, lift. rewrite H.
  assert (Hpx : ∀ i : Image, flatten (np_array i) = pixels i) by done.
  destruct (decide (mode img = "RGB")); rewrite Hpx; cbn [pixels convert];
    (destruct (decide (_ < _)%nat); [done|]);
    (destruct (encode_loop _ _ _); [|done]);
    unfold Image_save, Image_fromarray, astype_uint8, reshape, np_array, encoded_image, saved;
    cbn [shape elems size];
    destruct (writable w output_path); try done;
    destruct img as [m [wd ht] px]; done.
Qed.

Lemma encode_fault w image_path secret_text output_path :
  files w !! image_path = None →
  encode image_path secret_text output_path w
  = (Return (false, msg_encoding_error (lit "cannot identify image file")), w).
Proof.
  intros H. unfold encode, try_except, bind, Image_open. by rewrite H.
Qed.

Lemma decode_run w image_path img :
  files w !! image_path = Some img →
  decode image_path w =
  (Return (match decode_loop (pixels img) [] with
           | Some message => (true, message)
           | None => (false, msg_not_found)
           end), w).
Proof.
  intros H. unfold decode, try_except, bind, Image_open. rewrite H.
  assert (Hpx : ∀ i : Image, flatten (np_array i) = pixels i) by done.
  destruct (decide (mode img = "RGB")); rewrite Hpx; cbn [pixels convert];
    by destruct (decode_loop _ _).
Qed.

Lemma decode_fault w image_path :
  files w !! image_path = None →
  decode image_path w
  = (Return (false, msg_decoding_error (lit "cannot identify image file")), w).
Proof.
  intros H. unfold decode, try_except, bind, Image_open. by rewrite H.
Qed.

End Runs.

(** ** Capacity *)

(** What [get_max_capacity] computes.  For a readable carrier of width [w]
    and height [h] it returns the floor quotient [(w*h*3 - 56) // 8] and
    leaves the world as it is.  The result is [max(0, (w*h*3 - 56) // 8)]
    when [w*h*3 >= 56]; it is negative when [w*h*3 < 56], where a maximum
    number of characters that can be hidden would be [0]. *)
Theorem capacity_formula w image_path img :
  files w !! image_path = Some img →
  let '(width, height) := size img in
  get_max_capacity image_path w = (Return ((width * height * 3 - 56) `div` 8), w) ∧
  (56 ≤ width * height * 3 →
   (width * height * 3 - 56) `div` 8 = Z.max 0 ((width * height * 3 - 56) `div` 8)) ∧
  (width * height * 3 < 56 → (width * height * 3 - 56) `div` 8 < 0).
Proof.
  intros H. rewrite (get_max_capacity_run w image_path img H).
  destruct (size img) as [width height]. cbn [fst snd].
  split_and!; [done| |]; intros Hb.
  - assert (0 ≤ (width * height * 3 - 56) `div` 8) by (apply Z.div_pos; lia). lia.
  - apply Z.div_lt_upper_bound; lia.
Qed.

(** C2.  The capacity is to be [max(0, (w*h*3 - 56) // 8)], never negative.
    The code misses the clamp: on a readable carrier of one pixel
    [get_max_capacity] returns [-7], where the formula gives [0]. *)
Lemma capacity_not_clamped :
  fst (get_max_capacity "carrier.png" (carrier_world (blank 1 1 0))) = Return (-7) ∧
  fst (get_max_capacity "carrier.png" (carrier_world (blank 1 1 0)))
  ≠ Return (Z.max 0 ((1 * 1 * 3 - 56) `div` 8)).
Proof. split; [by vm_compute|]. vm_compute. discriminate. Qed.

Lemma capacity_formula_witness :
  get_max_capacity "carrier.png" (carrier_world (blank 10 10 0))
  = (Return 30, carrier_world (blank 10 10 0)).
Proof.
  pose proof (capacity_formula (carrier_world (blank 10 10 0)) "carrier.png"
                (blank 10 10 0) eq_refl) as H.
  cbn [size blank] in H. exact (proj1 H).
Defined.

(** ** Oversized payloads *)

(** C3.  When the bits of payload and marker (at least [8 * (len + 7)] of
    them) outnumber the channels of the carrier, [encode] returns the
    oversized-payload failure, and the world is the one it started in: no
    channel was written and no output image stored. *)
Theorem encode_oversized w image_path secret_text output_path img :
  files w !! image_path = Some img →
  (length (pixels img) < length (_text_to_binary (secret_text ++ DELIMITER)) ∨
   length (pixels img) < 8 * (length secret_text + 7))%nat →
  encode image_path secret_text output_path w = (Return (false, msg_too_small), w).
Proof.
  intros H Hbig. rewrite (encode_run _ _ _ _ _ H). cbv zeta.
  rewrite decide_True; [done|].
  destruct Hbig as [|Hbig]; [done|].
  pose proof (length_text_to_binary_ge (secret_text ++ DELIMITER)) as Hge.
  rewrite length_app in Hge. change (length DELIMITER) with 7%nat in Hge. lia.
Qed.

Lemma encode_oversized_witness :
  encode "carrier.png" (lit "abc") "out.png" (carrier_world (blank 5 1 0))
  = (Return (false, msg_too_small), carrier_world (blank 5 1 0)).
Proof.
  apply (encode_oversized _ _ _ _ (blank 5 1 0)); [reflexivity|].
  left. vm_compute. lia.
Defined.

(** ** Faults *)

(** C8.  Whatever the world and the arguments, the three methods return:
    [encode] and [decode] a pair of a flag and a message, a failure carrying
    one of the fixed messages or the text of the fault behind its prefix,
    never an empty message; [get_max_capacity] a number, which is [0] when
    the image cannot be opened. *)
Theorem no_fault_escapes w image_path secret_text output_path :
  (∃ ok message w',
     encode image_path secret_text output_path w = (Return (ok, message), w') ∧
     (ok = false →
      (message = msg_too_small ∨ ∃ e, message = msg_encoding_error e) ∧ message ≠ [])) ∧
  (∃ ok message,
     decode image_path w = (Return (ok, message), w) ∧
     (ok = false →
      (message = msg_not_found ∨ ∃ e, message = msg_decoding_error e) ∧ message ≠ [])) ∧
  (∃ n, get_max_capacity image_path w = (Return n, w) ∧
        (files w !! image_path = None → n = 0)).
Proof.
  destruct (files w !! image_path) as [img|] eqn:H; split_and!.
  - rewrite (encode_run _ _ _ _ _ H). cbv zeta.
    destruct (decide _); [|destruct (encode_loop _ _ _); [destruct (writable _ _)|]];
      eexists _, _, _; (split; [done|]); intros; try done; split; eauto; done.
  - rewrite (decode_run _ _ _ H).
    destruct (decode_loop _ _); eexists _, _; (split; [done|]); intros; try done;
      split; eauto; done.
  - rewrite (get_max_capacity_run _ _ _ H). eexists. split; [done|]. done.
  - rewrite (encode_fault _ _ _ _ H). eexists _, _, _. split; [done|].
    intros _. split; eauto; done.
  - rewrite (decode_fault _ _ H). eexists _, _. split; [done|].
    intros _. split; eauto; done.
  - rewrite (get_max_capacity_fault _ _ H). eexists. split; done.
Qed.

(** ** Conversions *)

Lemma text_to_binary_msb_first text :
  Forall (λ c, c ≤ 255)%N text → _text_to_binary text = concat (map msb_first text).
Proof.
  induction 1 as [|c text Hc _ IH]; [done|].
  rewrite text_to_binary_cons, IH, format_08b_msb_first by done. done.
Qed.

Lemma binary_to_text_trailing binary r :
  (length binary `mod` 8 = 0)%nat → (length r < 8)%nat →
  _binary_to_text (binary ++ r) = _binary_to_text binary.
Proof.
  intros Hmod Hr.
  pose proof (Nat.div_mod_eq (length binary) 8) as Hdiv.
  rewrite Hmod, Nat.add_0_r in Hdiv.
  remember (length binary / 8)%nat as q eqn:Hq. clear Hq Hmod.
  revert binary Hdiv. induction q as [|q IH]; intros binary Hdiv.
  - destruct binary; [|simpl in Hdiv; lia].
    rewrite app_nil_l, binary_to_text_short by done. done.
  - rewrite <- (take_drop 8 binary), <- app_assoc.
    rewrite (binary_to_text_cons (take 8 binary) (drop 8 binary ++ r)),
      (binary_to_text_cons (take 8 binary) (drop 8 binary))
      by (rewrite length_take; lia).
    rewrite IH; [done|]. rewrite length_drop. lia.
Qed.

(** C7.  On a text whose code points are at most 255: [_text_to_binary]
    gives 8 bits per character, those of the code point from bit 7 down to
    bit 0, in the order of the text; [_binary_to_text] reads any bit string
    as its consecutive groups of 8 bits and drops a shorter last group; and
    [_binary_to_text] after [_text_to_binary] gives the text back. *)
Theorem text_binary_round_trip text :
  Forall (λ c, c ≤ 255)%N text →
  length (_text_to_binary text) = (8 * length text)%nat ∧
  _text_to_binary text = concat (map msb_first text) ∧
  (∀ binary, _binary_to_text binary = bits_to_text_groups binary) ∧
  (∀ binary r, (length binary `mod` 8 = 0)%nat → (length r < 8)%nat →
               _binary_to_text (binary ++ r) = _binary_to_text binary) ∧
  _binary_to_text (_text_to_binary text) = text.
Proof.
  intros H. split_and!.
  - by apply length_text_to_binary.
  - by apply text_to_binary_msb_first.
  - apply binary_to_text_spec.
  - apply binary_to_text_trailing.
  - by apply binary_to_text_to_binary.
Qed.

Lemma text_binary_round_trip_witness :
  _binary_to_text (_text_to_binary (lit "Hi!")) = lit "Hi!".
Proof.
  apply (text_binary_round_trip (lit "Hi!")).
  repeat constructor; vm_compute; discriminate.
Defined.

(** C9.  A character above 255 takes more than 8 bits: for the one-character
    text [chr(256)] the bit string has 9 bits, more than 8 per character,
    and [_binary_to_text] does not give the text back.  In general a code
    point above 255 is written with more than 8 bits, a text is written with
    8 bits per character exactly when all its code points are at most 255,
    and a text with a code point above 255 is never recovered. *)
Theorem wide_characters :
  (∃ text, Exists (λ c, 255 < c)%N text ∧
           (8 * length text < length (_text_to_binary text))%nat ∧
           _binary_to_text (_text_to_binary text) ≠ text) ∧
  (∀ c, (255 < c)%N → (8 < length (format_08b (ord c)))%nat) ∧
  (∀ text, length (_text_to_binary text) = (8 * length text)%nat
           ↔ Forall (λ c, c ≤ 255)%N text) ∧
  (∀ text, Exists (λ c, 255 < c)%N text → _binary_to_text (_text_to_binary text) ≠ text).
Proof.
  assert (Hne : ∀ text, Exists (λ c, 255 < c)%N text →
                        _binary_to_text (_text_to_binary text) ≠ text).
  { intros text Hex Heq.
    pose proof (binary_to_text_range (_text_to_binary text)) as Hr.
    rewrite Heq in Hr. apply Exists_exists in Hex as (c & Hin & Hc).
    rewrite Forall_forall in Hr. specialize (Hr c Hin). lia. }
  split_and!.
  - exists [256%N]. split_and!.
    + constructor. lia.
    + vm_compute. lia.
    + apply Hne. constructor. lia.
  - intros c Hc. by apply length_format_08b_gt.
  - apply length_text_to_binary_iff.
  - apply Hne.
Qed.

(** ** Carriers without a message *)

Lemma binary_to_text_zeros (k : nat) :
  _binary_to_text (replicate (8 * k) false) = replicate k 0%N.
Proof.
  induction k as [|k IH]; [done|].
  replace (8 * S k)%nat with (8 + 8 * k)%nat by lia.
  rewrite replicate_add, binary_to_text_cons, IH by done. done.
Qed.

(** A buffer all of whose low-order bits are 0 shows the marker at no byte
    boundary. *)
Lemma lsbs_zero_no_marker flat :
  Forall (λ v, str_lsb v = false) flat →
  ∀ k : nat, (8 * k ≤ length flat)%nat →
    contains DELIMITER (_binary_to_text (take (8 * k) (lsbs flat))) = false.
Proof.
  intros Hz.
  assert (Hl : lsbs flat = replicate (length flat) false).
  { unfold lsbs. induction Hz as [|v flat Hv _ IH]; [done|].
    rewrite fmap_cons, Hv, IH. done. }
  intros k Hk.
  rewrite Hl, take_replicate, Nat.min_l, binary_to_text_zeros by done.
  apply contains_false. intros j. rewrite drop_replicate, DELIMITER_eq.
  by destruct (k - j)%nat.
Qed.

(** C6.  When no byte boundary of the stream of low-order bits of a readable
    buffer shows the marker, [decode] returns the no-message failure, after
    as many iterations of its loop as the buffer has channels; whatever the
    buffer, the loop runs at most once per channel. *)
Theorem decode_no_message w image_path img :
  files w !! image_path = Some img →
  (∀ k : nat, (8 * k ≤ length (pixels img))%nat →
     contains DELIMITER (_binary_to_text (take (8 * k) (lsbs (pixels img)))) = false) →
  decode image_path w = (Return (false, msg_not_found), w) ∧
  decode_iterations (pixels img) [] = length (pixels img) ∧
  ∀ flat, (decode_iterations flat [] ≤ length flat)%nat.
Proof.
  intros H Hno. rewrite (decode_run _ _ _ H).
  destruct (decode_loop_exhausted _ Hno) as [-> ->].
  split_and!; [done..|]. intros flat. apply decode_iterations_le.
Qed.

Lemma decode_no_message_witness :
  decode "carrier.png" (carrier_world (blank 4 2 0))
  = (Return (false, msg_not_found), carrier_world (blank 4 2 0)) ∧
  decode_iterations (pixels (blank 4 2 0)) [] = 24%nat ∧
  ∀ flat, (decode_iterations flat [] ≤ length flat)%nat.
Proof.
  apply (decode_no_message _ _ (blank 4 2 0)); [reflexivity|].
  apply lsbs_zero_no_marker. vm_compute. repeat constructor.
Defined.

(** ** Encoding, then decoding *)

Section EncodeDecode.

Implicit Types (w : World) (img : Image).

(** What [encode] does when the bits fit and the output can be written. *)
Lemma encode_success w image_path secret_text output_path img :
  files w !! image_path = Some img →
  writable w output_path = true →
  (length (_text_to_binary (secret_text ++ DELIMITER)) ≤ length (pixels img))%nat →
  ∃ flat',
    encode image_path secret_text output_path w
    = (Return (true, msg_hidden), saved w output_path (encoded_image img flat')) ∧
    length flat' = length (pixels img) ∧
    ∀ j v, pixels img !! j = Some v →
      flat' !! j = Some (match written 0 (_text_to_binary (secret_text ++ DELIMITER)) j with
                         | Some bit => Z.lor (Z.land v 0xFE) (Z.b2z bit)
                         | None => v
                         end).
Proof.
  intros H Hw Hfit.
  destruct (encode_loop_spec (_text_to_binary (secret_text ++ DELIMITER)) (pixels img) 0)
    as (flat' & Hrun & Hl & Hget); [simpl; lia|].
  exists flat'. split_and!; [|done..].
  rewrite (encode_run _ _ _ _ _ H). cbv zeta.
  rewrite decide_False by lia. by rewrite Hrun, Hw.
Qed.

(** [encode] reports success only when it found the carrier, the bits fit
    and the output could be written. *)
Lemma encode_accepted w image_path secret_text output_path message w' :
  encode image_path secret_text output_path w = (Return (true, message), w') →
  ∃ img, files w !! image_path = Some img ∧
         writable w output_path = true ∧
         (length (_text_to_binary (secret_text ++ DELIMITER)) ≤ length (pixels img))%nat.
Proof.
  intros He. destruct (files w !! image_path) as [img|] eqn:H.
  - exists img. rewrite (encode_run _ _ _ _ _ H) in He. cbv zeta in He.
    destruct (decide _); [done|].
    destruct (encode_loop _ _ _); [|done].
    destruct (writable w output_path); [|done]. split_and!; [done..|lia].
  - by rewrite (encode_fault _ _ _ _ H) in He.
Qed.

Lemma decode_saved w output_path img' :
  decode output_path (saved w output_path img') =
  (Return (match decode_loop (pixels img') [] with
           | Some message => (true, message)
           | None => (false, msg_not_found)
           end), saved w output_path img').
Proof. apply decode_run. unfold saved. cbn [files]. apply lookup_insert_eq. Qed.

(** The general round trip: when the bits written begin with those of an
    8-bit text [P] and of the marker, and the marker starts at no position of
    [P], decoding the stored image gives [P]. *)
Lemma encode_then_decode w image_path secret_text output_path img P tail :
  files w !! image_path = Some img →
  writable w output_path = true →
  (length (_text_to_binary (secret_text ++ DELIMITER)) ≤ length (pixels img))%nat →
  _text_to_binary (secret_text ++ DELIMITER) = _text_to_binary (P ++ DELIMITER) ++ tail →
  Forall (λ c, c ≤ 255)%N P →
  (∀ j, (j < length P)%nat → startswith DELIMITER (drop j (P ++ DELIMITER)) = false) →
  ∃ flat',
    encode image_path secret_text output_path w
    = (Return (true, msg_hidden), saved w output_path (encoded_image img flat')) ∧
    lsbs (pixels (encoded_image img flat'))
    = _text_to_binary (secret_text ++ DELIMITER)
      ++ lsbs (drop (length (_text_to_binary (secret_text ++ DELIMITER))) (pixels img)) ∧
    decode output_path (saved w output_path (encoded_image img flat'))
    = (Return (true, P), saved w output_path (encoded_image img flat')).
Proof.
  intros H Hw Hfit Hbits HP Hfirst.
  destruct (encode_success _ _ _ _ _ H Hw Hfit) as (flat' & He & Hl & Hget).
  exists flat'.
  pose proof (lsbs_encoded _ _ _ Hfit Hl Hget) as Hlsb.
  split_and!; [done..|].
  rewrite decode_saved.
  destruct (decode_loop_found (pixels (encoded_image img flat')) P
              (tail ++ lsbs (drop (length (_text_to_binary (secret_text ++ DELIMITER)))
                               (pixels img))) HP Hfirst) as [-> _]; [|done].
  cbn [pixels encoded_image]. by rewrite Hlsb, Hbits, <- app_assoc.
Qed.

End EncodeDecode.

(** ** Round trip *)

(** C1 (as amended).  For a carrier whose capacity is at least 1 and a
    payload [T] no longer than the capacity, whose code points are at most
    255 and which does not contain the marker, [encode] succeeds and [decode]
    of the stored image returns [(True, T)]. *)
Theorem encode_decode_round_trip w image_path output_path img secret_text capacity :
  files w !! image_path = Some img →
  Z.of_nat (length (pixels img)) = fst (size img) * snd (size img) * 3 →
  writable w output_path = true →
  get_max_capacity image_path w = (Return capacity, w) →
  1 ≤ capacity →
  Z.of_nat (length secret_text) ≤ capacity →
  Forall (λ c, c ≤ 255)%N secret_text →
  contains DELIMITER secret_text = false →
  ∃ w', encode image_path secret_text output_path w = (Return (true, msg_hidden), w') ∧
        decode output_path w' = (Return (true, secret_text), w').
Proof.
  intros H Hsize Hw Hcap _ Hlen H8 Hfree.
  rewrite (get_max_capacity_run _ _ _ H), <- Hsize in Hcap.
  injection Hcap as Hcap.
  pose proof (Z.mul_div_le (Z.of_nat (length (pixels img)) - 56) 8 ltac:(lia)) as Hdiv.
  assert (H8' : Forall (λ c, c ≤ 255)%N (secret_text ++ DELIMITER)).
  { apply Forall_app. split; [done|apply delimiter_range]. }
  pose proof (length_text_to_binary _ H8') as Hbits.
  rewrite length_app in Hbits. change (length DELIMITER) with 7%nat in Hbits.
  destruct (encode_then_decode w image_path secret_text output_path img secret_text [])
    as (flat' & He & _ & Hd); [done|done|lia|by rewrite app_nil_r|done| |by eauto].
  by apply delimiter_no_overlap.
Qed.

(** C1, as stated, fails for the payload ["<<END>>"] on a carrier of 40 x 1
    pixels (capacity 8): the round trip returns the empty text. *)
Lemma encode_decode_round_trip_counterexample :
  fst (get_max_capacity "carrier.png" (carrier_world (blank 40 1 0))) = Return 8 ∧
  (1 ≤ length (lit "<<END>>") ≤ 8)%nat ∧
  fst (decode "out.png"
         (snd (encode "carrier.png" (lit "<<END>>") "out.png"
                 (carrier_world (blank 40 1 0)))))
  = Return (true, []) ∧
  fst (decode "out.png"
         (snd (encode "carrier.png" (lit "<<END>>") "out.png"
                 (carrier_world (blank 40 1 0)))))
  ≠ Return (true, lit "<<END>>").
Proof.
  split_and!; [by vm_compute|simpl; lia|simpl; lia|by vm_compute|].
  vm_compute. discriminate.
Qed.

Lemma encode_decode_round_trip_witness :
  ∃ w', encode "carrier.png" (lit "hi") "out.png" (carrier_world (blank 40 1 255))
        = (Return (true, msg_hidden), w') ∧
        decode "out.png" w' = (Return (true, lit "hi"), w').
Proof.
  apply (encode_decode_round_trip _ _ _ (blank 40 1 255) _ 8);
    [reflexivity|reflexivity|reflexivity|reflexivity|lia|simpl; lia| |reflexivity].
  repeat constructor; vm_compute; discriminate.
Defined.

(** ** A payload that contains the marker *)

(** C5 (as amended).  When the payload contains the marker, the characters
    before the first occurrence of the marker have code points at most 255,
    and [encode] accepted the payload, [decode] of the stored image returns
    success with [secret_text.split(DELIMITER)[0]]: the part of the payload
    before the first occurrence of the marker, which is followed by the
    marker in the payload, is free of the marker, and is not the whole
    payload.  The characters after the first marker may be anything. *)
Theorem decode_stops_at_first_marker w image_path secret_text output_path message w' :
  encode image_path secret_text output_path w = (Return (true, message), w') →
  contains DELIMITER secret_text = true →
  Forall (λ c, c ≤ 255)%N (split_head DELIMITER secret_text) →
  decode output_path w' = (Return (true, split_head DELIMITER secret_text), w') ∧
  (∃ r, secret_text = split_head DELIMITER secret_text ++ DELIMITER ++ r) ∧
  contains DELIMITER (split_head DELIMITER secret_text) = false ∧
  split_head DELIMITER secret_text ≠ secret_text.
Proof.
  intros He Hin H8.
  destruct (encode_accepted _ _ _ _ _ _ He) as (img & H & Hw & Hfit).
  destruct (split_head_contains _ _ Hin) as (r & HT & Hfirst).
  remember (split_head DELIMITER secret_text) as P eqn:HP. clear HP.
  assert (Hfirst' : ∀ j, (j < length P)%nat →
                         startswith DELIMITER (drop j (P ++ DELIMITER)) = false).
  { intros j Hj. specialize (Hfirst j Hj).
    rewrite HT, (app_assoc P), drop_app_le in Hfirst by (rewrite length_app; lia).
    destruct (startswith DELIMITER (drop j (P ++ DELIMITER))) eqn:E; [|done].
    by rewrite (startswith_app _ _ r E) in Hfirst. }
  split_and!.
  - destruct (encode_then_decode w image_path secret_text output_path img P
                (_text_to_binary (r ++ DELIMITER)))
      as (flat' & He' & _ & Hd); [done..| |done|done|].
    + rewrite <- text_to_binary_app. f_equal. rewrite HT at 1.
      by rewrite <- !app_assoc.
    + rewrite He in He'. by simplify_eq.
  - by exists r.
  - apply contains_false. intros j.
    destruct (startswith DELIMITER (drop j P)) eqn:E; [|done].
    pose proof (startswith_length _ _ E) as Hl. rewrite length_drop in Hl.
    change (length DELIMITER) with 7%nat in Hl.
    rewrite <- (Hfirst' j) by lia. rewrite drop_app_le by lia.
    symmetry. by apply startswith_app.
  - intros Heq. apply (f_equal length) in HT.
    rewrite Heq, !length_app in HT. change (length DELIMITER) with 7%nat in HT. lia.
Qed.

Lemma decode_stops_at_first_marker_witness :
  decode "out.png"
    (snd (encode "carrier.png" (lit "a<<END>>b") "out.png" (carrier_world (blank 60 1 7))))
  = (Return (true, lit "a"),
     snd (encode "carrier.png" (lit "a<<END>>b") "out.png" (carrier_world (blank 60 1 7)))).
Proof.
  refine (proj1 (decode_stops_at_first_marker (carrier_world (blank 60 1 7))
                   "carrier.png" (lit "a<<END>>b") "out.png" msg_hidden _ _ _ _)).
  - vm_compute. reflexivity.
  - vm_compute. reflexivity.
  - vm_compute. repeat constructor; discriminate.
Defined.

(** C5, as stated, fails for the payload [chr(256) + "<<END>>"] on a carrier
    of 60 x 1 pixels: [encode] accepts it (121 bits for 180 channels), and
    [decode] of the stored image finds no marker, where the part before the
    first marker is [chr(256)]. *)
Lemma decode_stops_at_first_marker_counterexample :
  contains DELIMITER (256%N :: lit "<<END>>") = true ∧
  split_head DELIMITER (256%N :: lit "<<END>>") = [256%N] ∧
  fst (encode "carrier.png" (256%N :: lit "<<END>>") "out.png"
         (carrier_world (blank 60 1 0)))
  = Return (true, msg_hidden) ∧
  fst (decode "out.png"
         (snd (encode "carrier.png" (256%N :: lit "<<END>>") "out.png"
                 (carrier_world (blank 60 1 0)))))
  = Return (false, msg_not_found) ∧
  fst (decode "out.png"
         (snd (encode "carrier.png" (256%N :: lit "<<END>>") "out.png"
                 (carrier_world (blank 60 1 0)))))
  ≠ Return (true, split_head DELIMITER (256%N :: lit "<<END>>")).
Proof.
  split_and!; [by vm_compute..|]. vm_compute. discriminate.
Qed.

(** ** The empty payload *)

(** C10.  [encode] does not ask for a non-empty payload: on a carrier of at
    least 56 channels it accepts the empty text, the low-order bits of the
    stored image being the 56 bits of the marker followed by those of the
    rest of the carrier, and [decode] of the stored image returns
    [(True, "")]. *)
Theorem encode_empty_payload w image_path output_path img :
  files w !! image_path = Some img →
  (56 ≤ length (pixels img))%nat →
  writable w output_path = true →
  ∃ w',
    encode image_path [] output_path w = (Return (true, msg_hidden), w') ∧
    (∃ img', files w' !! output_path = Some img' ∧
             lsbs (pixels img') = _text_to_binary DELIMITER ++ lsbs (drop 56 (pixels img))) ∧
    decode output_path w' = (Return (true, []), w').
Proof.
  intros H Hlen Hw.
  destruct (encode_then_decode w image_path [] output_path img [] [])
    as (flat' & He & Hlsb & Hd);
    [done|done|by vm_compute|by rewrite app_nil_r|done|simpl; lia|].
  eexists. split_and!; [done| |done].
  eexists. split; [apply lookup_insert_eq|done].
Qed.

Lemma encode_empty_payload_witness :
  ∃ w',
    encode "carrier.png" [] "out.png" (carrier_world (blank 19 1 0))
    = (Return (true, msg_hidden), w') ∧
    (∃ img', files w' !! "out.png" = Some img' ∧
             lsbs (pixels img')
             = _text_to_binary DELIMITER ++ lsbs (drop 56 (pixels (blank 19 1 0)))) ∧
    decode "out.png" w' = (Return (true, []), w').
Proof.
  apply (encode_empty_payload _ _ _ (blank 19 1 0)); [reflexivity|simpl; lia|reflexivity].
Defined.

(** ** Only the low-order bit changes *)

(** C4.  When [encode] accepts a payload for a carrier of [uint8] channels,
    the stored image has the size and the number of channels of the carrier;
    a channel at an index below the number of bits written keeps its seven
    high bits ([v' & 0xFE == v & 0xFE]); a channel at or beyond that number
    keeps its value. *)
Theorem lsb_only_mutation w image_path secret_text output_path img message w' :
  files w !! image_path = Some img →
  Forall uint8 (pixels img) →
  encode image_path secret_text output_path w = (Return (true, message), w') →
  ∃ img',
    files w' !! output_path = Some img' ∧
    size img' = size img ∧
    length (pixels img') = length (pixels img) ∧
    ∀ (i : nat) v v',
      pixels img !! i = Some v → pixels img' !! i = Some v' →
      ((i < length (_text_to_binary (secret_text ++ DELIMITER)))%nat →
       Z.land v' 0xFE = Z.land v 0xFE) ∧
      ((length (_text_to_binary (secret_text ++ DELIMITER)) ≤ i)%nat → v' = v).
Proof.
  intros H Hu He.
  destruct (encode_accepted _ _ _ _ _ _ He) as (img0 & H0 & Hw & Hfit).
  assert (img0 = img) as -> by congruence.
  destruct (encode_success _ _ secret_text _ _ H Hw Hfit) as (flat' & He' & Hl & Hget).
  rewrite He in He'. injection He' as _ ->.
  exists (encoded_image img flat'). split_and!.
  - apply lookup_insert_eq.
  - done.
  - cbn [pixels encoded_image]. by rewrite length_fmap.
  - intros i v v' Hv Hv'. cbn [pixels encoded_image] in Hv'.
    rewrite list_lookup_fmap, (Hget i v Hv) in Hv'. simpl in Hv'.
    injection Hv' as <-.
    assert (Huv : uint8 v) by (by eapply Forall_lookup_1).
    unfold written. rewrite decide_True by lia. rewrite Nat.sub_0_r.
    split; intros Hi.
    + destruct (lookup_lt_is_Some_2 _ _ Hi) as [bit ->].
      rewrite Z.mod_small by (by apply uint8_set). apply high_bits_set.
    + rewrite (proj2 (lookup_ge_None _ _) Hi). by apply Z.mod_small.
Qed.

Lemma lsb_only_mutation_witness :
  ∃ img',
    files (snd (encode "carrier.png" (lit "hi") "out.png" (carrier_world (blank 40 1 255))))
      !! "out.png" = Some img' ∧
    size img' = (40, 1) ∧
    length (pixels img') = 120%nat ∧
    ∀ (i : nat) v v',
      pixels (blank 40 1 255) !! i = Some v → pixels img' !! i = Some v' →
      ((i < length (_text_to_binary (lit "hi" ++ DELIMITER)))%nat →
       Z.land v' 0xFE = Z.land v 0xFE) ∧
      ((length (_text_to_binary (lit "hi" ++ DELIMITER)) ≤ i)%nat → v' = v).
Proof.
  apply (lsb_only_mutation (carrier_world (blank 40 1 255)) "carrier.png" (lit "hi")
           "out.png" (blank 40 1 255) msg_hidden).
  - reflexivity.
  - vm_compute. repeat constructor; discriminate.
  - vm_compute. reflexivity.
Defined.

(** * Further properties of the codec *)

(** ** [decode] as a search in the whole stream *)

Section WholeStream.

Implicit Types (flat : list Z) (binary : list bool) (sub s : list N).

Lemma binary_to_text_take (k : nat) : ∀ binary,
  _binary_to_text (take (8 * k) binary) = take k (_binary_to_text binary).
Proof.
  induction k as [|k IH]; intros binary.
  - by rewrite Nat.mul_0_r, !take_0.
  - destruct (decide (length binary < 8)%nat) as [Hs|Hl].
    + rewrite take_ge by lia. rewrite binary_to_text_short by done. by rewrite take_nil.
    + rewrite <- (take_drop 8 binary) at 1 2.
      replace (8 * S k)%nat with (length (take 8 binary) + 8 * k)%nat
        by (rewrite length_take; lia).
      rewrite take_app_add, !binary_to_text_cons by (rewrite length_take; lia).
      by rewrite IH.
Qed.

Lemma length_binary_to_text binary :
  length (_binary_to_text binary) = (length binary / 8)%nat.
Proof.
  rewrite binary_to_text_spec. unfold bits_to_text_groups.
  by rewrite length_map, length_seq.
Qed.

Lemma contains_take_mono sub s (k : nat) :
  contains sub (take k s) = true → contains sub s = true.
Proof.
  rewrite !contains_true. intros (l & r & Hk).
  exists l, (r ++ drop k s). by rewrite !app_assoc, <- (app_assoc l), <- Hk, take_drop.
Qed.

(** No occurrence of [sub] lies within the first [k] characters when [sub]
    starts at no position before [i] and [k < i + len(sub)]. *)
Lemma contains_take_before sub s (i k : nat) :
  (∀ j, (j < i)%nat → startswith sub (drop j s) = false) →
  (k < i + length sub)%nat →
  contains sub (take k s) = false.
Proof.
  intros H Hk. apply contains_false. intros j.
  destruct (startswith sub (drop j (take k s))) eqn:E; [|done].
  pose proof (startswith_length _ _ E) as Hl.
  rewrite length_drop, length_take in Hl.
  destruct (decide (j ≤ k)%nat) as [Hjk|Hjk].
  - replace k with (j + (k - j))%nat in E by lia.
    rewrite <- take_drop_commute in E. apply startswith_take in E.
    rewrite H in E by lia. done.
  - destruct sub; [|simpl in Hl; lia].
    specialize (H 0%nat ltac:(simpl in Hk; lia)). done.
Qed.

(** The loop stops at the first byte boundary that shows the marker. *)
Lemma decode_loop_first_hit flat (k0 : nat) :
  (0 < k0)%nat → (8 * k0 ≤ length flat)%nat →
  (∀ k, (0 < k < k0)%nat →
        contains DELIMITER (_binary_to_text (take (8 * k) (lsbs flat))) = false) →
  contains DELIMITER (_binary_to_text (take (8 * k0) (lsbs flat))) = true →
  decode_loop flat []
  = Some (split_head DELIMITER (_binary_to_text (take (8 * k0) (lsbs flat)))) ∧
  decode_iterations flat [] = (8 * k0)%nat.
Proof.
  intros Hk0 Hlen Hmiss Hhit.
  set (L := (8 * k0)%nat) in *.
  destruct (lookup_lt_is_Some_2 flat (L - 1)) as [v Hv]; [lia|].
  assert (Htake : ∀ k, lsbs (take k flat) = take k (lsbs flat)).
  { intros k. unfold lsbs. by rewrite fmap_take. }
  rewrite <- (take_drop_middle flat (L - 1) v Hv) at 1 3.
  destruct (decode_loop_miss (take (L - 1) flat) (v :: drop (S (L - 1)) flat) [])
    as [-> ->].
  { intros k Hk Hmod. rewrite length_take in Hk.
    rewrite app_nil_l, take_take, Htake.
    replace (k `min` (L - 1))%nat with k by lia.
    change (length [] + k)%nat with k in Hmod.
    pose proof (Nat.div_mod_eq k 8) as Hdiv.
    rewrite Hmod, Nat.add_0_r in Hdiv. rewrite Hdiv.
    apply Hmiss. lia. }
  rewrite decode_loop_cons, decode_iterations_cons, app_nil_l.
  assert (Hbits : lsbs (take (L - 1) flat) ++ [str_lsb v] = take L (lsbs flat)).
  { change [str_lsb v] with (lsbs [v]). unfold lsbs. rewrite <- fmap_app.
    rewrite <- take_S_r by done. rewrite fmap_take. f_equal. lia. }
  rewrite Hbits, Hhit.
  assert (HL : length (take L (lsbs flat)) = L).
  { unfold lsbs. rewrite length_take, length_fmap. lia. }
  rewrite HL, andb_true_intro.
  2:{ split; apply bool_decide_eq_true_2; [lia|].
      unfold L. by rewrite Nat.mul_comm, Nat.Div0.mod_mul. }
  rewrite length_take. split; [done|lia].
Qed.

(** The loop of [decode] computes what one conversion of the whole stream of
    low-order bits and one search for the marker compute, and its number of
    iterations is fixed by the position of the marker. *)
Lemma decode_loop_whole_stream flat :
  decode_loop flat []
  = (if contains DELIMITER (_binary_to_text (lsbs flat))
     then Some (split_head DELIMITER (_binary_to_text (lsbs flat)))
     else None) ∧
  decode_iterations flat []
  = (if contains DELIMITER (_binary_to_text (lsbs flat))
     then 8 * (length (split_head DELIMITER (_binary_to_text (lsbs flat))) + 7)
     else length flat)%nat.
Proof.
  set (text := _binary_to_text (lsbs flat)).
  assert (Hlt : length text = (length flat / 8)%nat).
  { unfold text, lsbs. by rewrite length_binary_to_text, length_fmap. }
  pose proof (Nat.Div0.mul_div_le (length flat) 8) as Hle.
  unfold contains, split_head. destruct (find DELIMITER text) as [i|] eqn:Ef.
  - apply find_Some in Ef as (Hat & Hi & Hbefore).
    pose proof (startswith_length _ _ Hat) as Hl.
    rewrite length_drop in Hl. change (length DELIMITER) with 7%nat in Hl.
    assert (Hfind : find DELIMITER (take (i + 7) text) = Some i).
    { apply find_Some. split_and!.
      - replace (i + 7)%nat with (i + 7)%nat by done.
        rewrite <- take_drop_commute.
        apply startswith_spec in Hat as [r ->].
        rewrite take_app_length' by done.
        rewrite <- (app_nil_r DELIMITER) at 2. apply startswith_self.
      - rewrite length_take. lia.
      - intros j Hj. specialize (Hbefore j Hj).
        destruct (startswith DELIMITER (drop j (take (i + 7) text))) eqn:E; [|done].
        replace (i + 7)%nat with (j + (i + 7 - j))%nat in E by lia.
        rewrite <- take_drop_commute in E. apply startswith_take in E. congruence. }
    destruct (decode_loop_first_hit flat (i + 7)) as [-> ->]; [lia|lia| | |].
    + intros k Hk. fold text. rewrite binary_to_text_take.
      apply (contains_take_before _ _ i); [done|].
      change (length DELIMITER) with 7%nat. lia.
    + rewrite binary_to_text_take. fold text. unfold contains. by rewrite Hfind.
    + rewrite binary_to_text_take. fold text. unfold split_head. rewrite Hfind.
      rewrite take_take, Nat.min_l by lia.
      rewrite length_take, Nat.min_l by lia. done.
  - destruct (decode_loop_exhausted flat) as [-> ->]; [|done].
    intros k Hk. rewrite binary_to_text_take. fold text.
    destruct (contains DELIMITER (take k text)) eqn:E; [|done].
    apply contains_take_mono in E. unfold contains in E. by rewrite Ef in E.
Qed.

End WholeStream.

(** X1.  [decode] of a readable image returns what one conversion of the
    whole stream of low-order bits and one search for the marker give: the
    text before the first marker of that text, or the no-message failure
    when that text holds no marker. *)
Theorem decode_whole_stream w image_path img :
  files w !! image_path = Some img →
  decode image_path w =
  (Return (if contains DELIMITER (_binary_to_text (lsbs (pixels img)))
           then (true, split_head DELIMITER (_binary_to_text (lsbs (pixels img))))
           else (false, msg_not_found)), w).
Proof.
  intros H. rewrite (decode_run _ _ _ H).
  destruct (decode_loop_whole_stream (pixels img)) as [-> _].
  by destruct (contains _ _).
Qed.

Lemma decode_whole_stream_witness :
  decode "carrier.png" (carrier_world (blank 4 2 0))
  = (Return (false, msg_not_found), carrier_world (blank 4 2 0)).
Proof.
  exact (decode_whole_stream (carrier_world (blank 4 2 0)) "carrier.png" (blank 4 2 0)
           eq_refl).
Defined.

(** X2.  The loop of [decode] runs [8 * (len(message) + 7)] times when the
    stream of low-order bits holds a marker, whatever follows in the buffer,
    and once per channel when it holds none. *)
Theorem decode_iterations_whole_stream (flat : list Z) :
  decode_iterations flat []
  = (if contains DELIMITER (_binary_to_text (lsbs flat))
     then 8 * (length (split_head DELIMITER (_binary_to_text (lsbs flat))) + 7)
     else length flat)%nat.
Proof. apply decode_loop_whole_stream. Qed.

(** X3.  [decode] reads nothing but the low-order bit of each channel: two
    readable images with the same stream of low-order bits decode alike. *)
Theorem decode_depends_on_lsbs w1 w2 path1 path2 img1 img2 :
  files w1 !! path1 = Some img1 →
  files w2 !! path2 = Some img2 →
  lsbs (pixels img1) = lsbs (pixels img2) →
  fst (decode path1 w1) = fst (decode path2 w2).
Proof.
  intros H1 H2 Hl. rewrite (decode_run _ _ _ H1), (decode_run _ _ _ H2). cbn [fst].
  destruct (decode_loop_whole_stream (pixels img1)) as [-> _].
  destruct (decode_loop_whole_stream (pixels img2)) as [-> _].
  by rewrite Hl.
Qed.

Lemma decode_depends_on_lsbs_witness :
  fst (decode "carrier.png" (carrier_world (blank 4 2 6)))
  = fst (decode "carrier.png" (carrier_world (blank 4 2 200))).
Proof.
  apply (decode_depends_on_lsbs _ _ _ _ (blank 4 2 6) (blank 4 2 200));
    reflexivity.
Defined.

(** X4.  A message that [decode] returns is well formed: it holds no marker,
    its code points are at most 255, and the image it comes from has at
    least [8 * (len(message) + 7)] channels. *)
Theorem decoded_message_well_formed w image_path message w' :
  decode image_path w = (Return (true, message), w') →
  contains DELIMITER message = false ∧
  Forall (λ c, c ≤ 255)%N message ∧
  ∃ img, files w !! image_path = Some img ∧
         (8 * (length message + 7) ≤ length (pixels img))%nat.
Proof.
  intros Hd. destruct (files w !! image_path) as [img|] eqn:H.
  2:{ by rewrite (decode_fault _ _ H) in Hd. }
  rewrite (decode_run _ _ _ H) in Hd.
  destruct (decode_loop_whole_stream (pixels img)) as [Hl _]. rewrite Hl in Hd.
  set (text := _binary_to_text (lsbs (pixels img))) in *.
  assert (Hlt : length text = (length (pixels img) / 8)%nat).
  { unfold text, lsbs. by rewrite length_binary_to_text, length_fmap. }
  pose proof (Nat.Div0.mul_div_le (length (pixels img)) 8) as Hle.
  unfold contains, split_head in Hd.
  destruct (find DELIMITER text) as [i|] eqn:Ef; [|done].
  injection Hd as <- <-.
  apply find_Some in Ef as (Hat & Hi & Hbefore).
  pose proof (startswith_length _ _ Hat) as Hlen.
  rewrite length_drop in Hlen. change (length DELIMITER) with 7%nat in Hlen.
  split_and!.
  - apply (contains_take_before _ _ i); [done|].
    change (length DELIMITER) with 7%nat. lia.
  - apply Forall_take, binary_to_text_range.
  - exists img. split; [done|]. rewrite length_take. lia.
Qed.

Lemma decoded_message_well_formed_witness :
  contains DELIMITER (lit "hi") = false ∧
  Forall (λ c, c ≤ 255)%N (lit "hi") ∧
  ∃ img,
    files (snd (encode "carrier.png" (lit "hi") "out.png" (carrier_world (blank 40 1 255))))
      !! "out.png" = Some img ∧
    (8 * (length (lit "hi") + 7) ≤ length (pixels img))%nat.
Proof.
  refine (decoded_message_well_formed
            (snd (encode "carrier.png" (lit "hi") "out.png" (carrier_world (blank 40 1 255))))
            "out.png" (lit "hi")
            (snd (encode "carrier.png" (lit "hi") "out.png" (carrier_world (blank 40 1 255))))
            _).
  vm_compute. reflexivity.
Defined.

(** X5.  An image of fewer than 56 channels cannot hold the marker:
    [decode] returns the no-message failure on it. *)
Theorem decode_small_carrier w image_path img :
  files w !! image_path = Some img →
  (length (pixels img) < 56)%nat →
  decode image_path w = (Return (false, msg_not_found), w).
Proof.
  intros H Hsmall. rewrite (decode_run _ _ _ H).
  destruct (decode_loop_whole_stream (pixels img)) as [-> _].
  destruct (contains _ _) eqn:E; [|done].
  apply contains_true in E as (l & r & E). apply (f_equal length) in E.
  unfold lsbs in E. rewrite length_binary_to_text, length_fmap, !length_app in E.
  change (length DELIMITER) with 7%nat in E.
  assert (length (pixels img) / 8 < 7)%nat by (apply Nat.Div0.div_lt_upper_bound; lia).
  lia.
Qed.

Lemma decode_small_carrier_witness :
  decode "carrier.png" (carrier_world (blank 6 3 1))
  = (Return (false, msg_not_found), carrier_world (blank 6 3 1)).
Proof.
  apply (decode_small_carrier _ _ (blank 6 3 1)); [reflexivity|simpl; lia].
Defined.

(** ** When [encode] succeeds, and what it leaves alone *)



(** X7.  [encode] touches the world at the output path only, and only on
    success: a failed call leaves the world as it was; a successful one
    stores an RGB image of [uint8] channels at the output path and changes no
    other path. *)
Theorem encode_frame w image_path secret_text output_path ok message w' :
  encode image_path secret_text output_path w = (Return (ok, message), w') →
  writable w' = writable w ∧
  (∀ path, path ≠ output_path → files w' !! path = files w !! path) ∧
  (ok = false → w' = w) ∧
  (ok = true → ∃ img', files w' !! output_path = Some img' ∧
                       mode img' = "RGB" ∧ Forall uint8 (pixels img')).
Proof.
  intros He. destruct (files w !! image_path) as [img|] eqn:H.
  2:{ rewrite (encode_fault _ _ _ _ H) in He. by simplify_eq. }
  rewrite (encode_run _ _ _ _ _ H) in He. cbv zeta in He.
  destruct (decide _); [by simplify_eq|].
  destruct (encode_loop _ _ _) as [flat'|e]; [|by simplify_eq].
  destruct (writable w output_path); [|by simplify_eq].
  injection He as <- <- <-. split_and!; [done| |done|].
  - intros path Hne. unfold saved. cbn [files]. by rewrite lookup_insert_ne.
  - intros _. eexists. split; [apply lookup_insert_eq|]. split; [done|].
    cbn [pixels encoded_image]. apply Forall_fmap, Forall_forall.
    intros v _. unfold uint8. simpl. apply Z.mod_pos_bound. lia.
Qed.

Lemma encode_frame_witness :
  writable (snd (encode "carrier.png" (lit "hi") "out.png" (carrier_world (blank 40 1 255))))
  = writable (carrier_world (blank 40 1 255)) ∧
  (∀ path, path ≠ "out.png" →
     files (snd (encode "carrier.png" (lit "hi") "out.png" (carrier_world (blank 40 1 255))))
       !! path
     = files (carrier_world (blank 40 1 255)) !! path) ∧
  (true = false →
   snd (encode "carrier.png" (lit "hi") "out.png" (carrier_world (blank 40 1 255)))
   = carrier_world (blank 40 1 255)) ∧
  (true = true → ∃ img',
     files (snd (encode "carrier.png" (lit "hi") "out.png" (carrier_world (blank 40 1 255))))
       !! "out.png" = Some img' ∧
     mode img' = "RGB" ∧ Forall uint8 (pixels img')).
Proof.
  apply (encode_frame (carrier_world (blank 40 1 255)) "carrier.png" (lit "hi") "out.png"
           true msg_hidden).
  vm_compute. reflexivity.
Defined.

(** X8.  The capacity check of the callers and the check of [encode] agree:
    on a carrier of [width * height * 3] channels, a payload longer than
    [get_max_capacity] is refused by [encode] as too large, and a payload of
    code points up to 255 is within the capacity exactly when its bits and
    those of the marker fit the carrier. *)
Theorem capacity_guard w image_path secret_text output_path img capacity :
  files w !! image_path = Some img →
  Z.of_nat (length (pixels img)) = fst (size img) * snd (size img) * 3 →
  get_max_capacity image_path w = (Return capacity, w) →
  (capacity < Z.of_nat (length secret_text) →
   encode image_path secret_text output_path w = (Return (false, msg_too_small), w)) ∧
  (Forall (λ c, c ≤ 255)%N secret_text →
   (Z.of_nat (length secret_text) ≤ capacity ↔
    (length (_text_to_binary (secret_text ++ DELIMITER)) ≤ length (pixels img))%nat)).
Proof.
  intros H Hsize Hcap.
  rewrite (get_max_capacity_run _ _ _ H), <- Hsize in Hcap. injection Hcap as Hcap.
  set (n := Z.of_nat (length (pixels img))) in *.
  pose proof (Z.mul_div_le (n - 56) 8 ltac:(lia)) as Hlo.
  pose proof (Z.mul_succ_div_gt (n - 56) 8 ltac:(lia)) as Hhi.
  rewrite Hcap in Hlo, Hhi.
  split.
  - intros Hlong. rewrite (encode_run _ _ _ _ _ H). cbv zeta.
    rewrite decide_True; [done|].
    pose proof (length_text_to_binary_ge (secret_text ++ DELIMITER)) as Hge.
    rewrite length_app in Hge. change (length DELIMITER) with 7%nat in Hge. lia.
  - intros H8.
    assert (H8' : Forall (λ c, c ≤ 255)%N (secret_text ++ DELIMITER)).
    { apply Forall_app. split; [done|apply delimiter_range]. }
    rewrite (length_text_to_binary _ H8'), length_app.
    change (length DELIMITER) with 7%nat. lia.
Qed.

Lemma capacity_guard_witness :
  (8 < Z.of_nat (length (lit "hi")) →
   encode "carrier.png" (lit "hi") "out.png" (carrier_world (blank 40 1 255))
   = (Return (false, msg_too_small), carrier_world (blank 40 1 255))) ∧
  (Forall (λ c, c ≤ 255)%N (lit "hi") →
   (Z.of_nat (length (lit "hi")) ≤ 8 ↔
    (length (_text_to_binary (lit "hi" ++ DELIMITER))
     ≤ length (pixels (blank 40 1 255)))%nat)).
Proof.
  apply (capacity_guard (carrier_world (blank 40 1 255)) "carrier.png" (lit "hi") "out.png"
           (blank 40 1 255) 8); reflexivity.
Defined.

(** ** How far a channel moves *)

Lemma set_lsb_close v (bit : bool) :
  uint8 v → Z.abs (Z.lor (Z.land v 0xFE) (Z.b2z bit) - v) ≤ 1.
Proof.
  intros Hv.
  assert (Hall : forallb (λ k, forallb (λ b,
              bool_decide (Z.abs (Z.lor (Z.land (Z.of_nat k) 0xFE) (Z.b2z b) - Z.of_nat k) ≤ 1))
              [true; false]) (seq 0 256) = true) by (vm_compute; reflexivity).
  rewrite forallb_forall in Hall.
  assert (Hin : In (Z.to_nat v) (seq 0 256)) by (apply in_seq; unfold uint8 in Hv; lia).
  apply Hall in Hin. rewrite Z2Nat.id in Hin by (unfold uint8 in Hv; lia).
  rewrite forallb_forall in Hin. specialize (Hin bit).
  apply bool_decide_eq_true in Hin; [done|]. destruct bit; simpl; auto.
Qed.

(** X9.  When [encode] accepts a payload for a carrier of [uint8] channels,
    every channel of the stored image is within 1 of the carrier's. *)
Theorem encode_changes_by_at_most_one w image_path secret_text output_path img message w' :
  files w !! image_path = Some img →
  Forall uint8 (pixels img) →
  encode image_path secret_text output_path w = (Return (true, message), w') →
  ∃ img',
    files w' !! output_path = Some img' ∧
    ∀ (i : nat) v v',
      pixels img !! i = Some v → pixels img' !! i = Some v' → Z.abs (v' - v) ≤ 1.
Proof.
  intros H Hu He.
  destruct (encode_accepted _ _ _ _ _ _ He) as (img0 & H0 & Hw & Hfit).
  assert (img0 = img) as -> by congruence.
  destruct (encode_success _ _ secret_text _ _ H Hw Hfit) as (flat' & He' & Hl & Hget).
  rewrite He in He'. injection He' as _ ->.
  exists (encoded_image img flat'). split; [apply lookup_insert_eq|].
  intros i v v' Hv Hv'. cbn [pixels encoded_image] in Hv'.
  rewrite list_lookup_fmap, (Hget i v Hv) in Hv'. simpl in Hv'.
  injection Hv' as <-.
  assert (Huv : uint8 v) by (by eapply Forall_lookup_1).
  destruct (written 0 _ i) as [bit|].
  - rewrite Z.mod_small by (by apply uint8_set). by apply set_lsb_close.
  - rewrite Z.mod_small by done. lia.
Qed.

Lemma encode_changes_by_at_most_one_witness :
  ∃ img',
    files (snd (encode "carrier.png" (lit "hi") "out.png" (carrier_world (blank 40 1 255))))
      !! "out.png" = Some img' ∧
    ∀ (i : nat) v v',
      pixels (blank 40 1 255) !! i = Some v → pixels img' !! i = Some v' →
      Z.abs (v' - v) ≤ 1.
Proof.
  apply (encode_changes_by_at_most_one (carrier_world (blank 40 1 255)) "carrier.png"
           (lit "hi") "out.png" (blank 40 1 255) msg_hidden).
  - reflexivity.
  - vm_compute. repeat constructor; discriminate.
  - vm_compute. reflexivity.
Defined.

(** ** Using an encoded image as a carrier *)

(** X10.  An image that [encode] stored can carry a new message: encoding an
    8-bit, marker-free payload that fits into it succeeds, and [decode] of
    the result returns the new payload, whatever the first one was. *)
Theorem reencode_overwrites w image_path text1 path1 message1 w1 img text2 path2 :
  files w !! image_path = Some img →
  encode image_path text1 path1 w = (Return (true, message1), w1) →
  writable w path2 = true →
  Forall (λ c, c ≤ 255)%N text2 →
  contains DELIMITER text2 = false →
  (8 * (length text2 + 7) ≤ length (pixels img))%nat →
  ∃ w2, encode path1 text2 path2 w1 = (Return (true, msg_hidden), w2) ∧
        decode path2 w2 = (Return (true, text2), w2).
Proof.
  intros H He1 Hw2 H8 Hfree Hfit2.
  destruct (encode_accepted _ _ _ _ _ _ He1) as (img0 & H0 & Hw1 & Hfit1).
  assert (img0 = img) as -> by congruence.
  destruct (encode_success _ _ text1 _ _ H Hw1 Hfit1) as (flat' & He' & Hl & _).
  rewrite He1 in He'. injection He' as _ ->.
  assert (H8' : Forall (λ c, c ≤ 255)%N (text2 ++ DELIMITER)).
  { apply Forall_app. split; [done|apply delimiter_range]. }
  pose proof (length_text_to_binary _ H8') as Hbits.
  rewrite length_app in Hbits. change (length DELIMITER) with 7%nat in Hbits.
  destruct (encode_then_decode (saved w path1 (encoded_image img flat')) path1 text2 path2
              (encoded_image img flat') text2 [])
    as (flat2 & He2 & _ & Hd2).
  - apply lookup_insert_eq.
  - done.
  - cbn [pixels encoded_image]. rewrite length_fmap. lia.
  - by rewrite app_nil_r.
  - done.
  - by apply delimiter_no_overlap.
  - eauto.
Qed.

Lemma reencode_overwrites_witness :
  ∃ w2,
    encode "first.png" (lit "b") "second.png"
      (snd (encode "carrier.png" (lit "hi") "first.png" (carrier_world (blank 40 1 255))))
    = (Return (true, msg_hidden), w2) ∧
    decode "second.png" w2 = (Return (true, lit "b"), w2).
Proof.
  apply (reencode_overwrites (carrier_world (blank 40 1 255)) "carrier.png" (lit "hi")
           "first.png" msg_hidden _ (blank 40 1 255) (lit "b") "second.png").
  - reflexivity.
  - vm_compute. reflexivity.
  - reflexivity.
  - repeat constructor; vm_compute; discriminate.
  - reflexivity.
  - simpl. lia.
Defined.

(** * The upload helpers *)

Section UploadHelpers.

Implicit Types (sub s stem ext filename : list N) (d : N).

Lemma rfind_None sub s :
  sub ≠ [] → rfind sub s = None ↔ ∀ j, startswith sub (drop j s) = false.
Proof.
  intros Hsub. induction s as [|c s IH].
  - split; [|done]. intros _ j. rewrite drop_nil. by destruct sub.
  - cbn [rfind]. destruct (rfind sub s) as [i|].
    + split; [done|]. intros H. assert (Some i = None); [|done].
      apply IH. intros j. apply (H (S j)).
    + destruct (startswith sub (c :: s)) eqn:E.
      * split; [done|]. intros H. specialize (H 0%nat). simpl in H. congruence.
      * split; [|done]. intros _ [|j]; [done|]. simpl. by apply IH.
Qed.

Lemma rfind_char_Some d s : ∀ i,
  rfind [d] s = Some i →
  s = take i s ++ [d] ++ drop (S i) s ∧ contains [d] (drop (S i) s) = false.
Proof.
  induction s as [|c s IH]; intros i; [done|].
  cbn [rfind]. destruct (rfind [d] s) as [j|] eqn:Ej.
  - intros [= <-]. destruct (IH j eq_refl) as [Hs Hn].
    split; [|done].
    change (c :: s = c :: (take j s ++ [d] ++ drop (S j) s)). by rewrite <- Hs.
  - destruct (startswith [d] (c :: s)) eqn:E; [|done].
    intros [= <-]. simpl in E. rewrite andb_true_r in E. apply N.eqb_eq in E as <-.
    simpl. rewrite drop_0. split; [done|].
    apply contains_false. by apply rfind_None.
Qed.

Lemma rfind_char_last d stem ext :
  contains [d] ext = false → rfind [d] (stem ++ [d] ++ ext) = Some (length stem).
Proof.
  intros Hext. induction stem as [|c stem IH].
  - simpl. rewrite (proj2 (rfind_None [d] ext ltac:(done))) by by apply contains_false.
    by rewrite N.eqb_refl.
  - simpl in *. by rewrite IH.
Qed.

Lemma contains_char_rfind d s :
  contains [d] s = true → ∃ i, rfind [d] s = Some i.
Proof.
  intros H. destruct (rfind [d] s) as [i|] eqn:E; [by eauto|].
  pose proof (proj1 (rfind_None [d] s ltac:(done)) E) as E'.
  apply contains_false in E'. congruence.
Qed.

Lemma lit_dot : lit "." = [46%N].
Proof. reflexivity. Qed.

Lemma allowed_extension_no_dot ext :
  ext ∈ ALLOWED_EXTENSIONS → contains (lit ".") ext = false.
Proof.
  unfold ALLOWED_EXTENSIONS. rewrite !elem_of_union, !elem_of_singleton.
  intros [[->| ->]| ->]; reflexivity.
Qed.

(** X11.  [allowed_file] never raises, and it accepts a name exactly when
    the name has a dot and the text after its last dot, lowered, is one of
    [png], [jpg], [jpeg]; a name without a dot is refused. *)
Theorem allowed_file_spec (lower : list N → list N) filename :
  ∃ ok, allowed_file lower filename = Return ok ∧
        (ok = true ↔
         ∃ stem ext, filename = stem ++ lit "." ++ ext ∧
                     contains (lit ".") ext = false ∧
                     lower ext ∈ ALLOWED_EXTENSIONS).
Proof.
  unfold allowed_file. rewrite lit_dot.
  destruct (contains [46%N] filename) eqn:Hdot.
  - destruct (contains_char_rfind _ _ Hdot) as [i Hi].
    destruct (rfind_char_Some _ _ _ Hi) as [Hs Hn].
    unfold rsplit1, getitem. rewrite Hi. cbn [lookup list_lookup].
    change (i + length [46%N])%nat with (i + 1)%nat. rewrite Nat.add_1_r.
    eexists. split; [done|]. rewrite bool_decide_eq_true. split.
    + intros Hin. by exists (take i filename), (drop (S i) filename).
    + intros (stem & ext & Hf & Hext & Hin).
      pose proof (rfind_char_last _ stem ext Hext) as Hlast.
      rewrite <- Hf, Hi in Hlast. injection Hlast as ->. rewrite Hf.
      replace (S (length stem)) with (length (stem ++ [46%N]))
        by (rewrite length_app; simpl; lia).
      by rewrite app_assoc, drop_app_length.
  - exists false. split; [done|]. split; [done|].
    intros (stem & ext & -> & _).
    assert (contains [46%N] (stem ++ [46%N] ++ ext) = true); [|congruence].
    apply contains_true. eauto.
Qed.

(** X12.  For a name that [allowed_file] accepts, [generate_unique_filename]
    does not raise and returns the first 8 characters of the uuid, a dot and
    one of [png], [jpg], [jpeg]; the name that the route [encode] derives for
    the encoded image is then ["encoded_"], those 8 characters and [".png"]:
    it holds no character of the uploaded name and passes the prefix test of
    the route [download]. *)
Theorem generate_unique_filename_allowed (lower : list N → list N) uuid4 filename :
  allowed_file lower filename = Return true →
  ∃ ext,
    ext ∈ ALLOWED_EXTENSIONS ∧
    generate_unique_filename lower uuid4 filename = Return (take 8 uuid4 ++ lit "." ++ ext) ∧
    output_filename (take 8 uuid4 ++ lit "." ++ ext)
    = Return (lit "encoded_" ++ take 8 uuid4 ++ lit ".png") ∧
    startswith (lit "encoded_") (lit "encoded_" ++ take 8 uuid4 ++ lit ".png") = true.
Proof.
  unfold allowed_file, generate_unique_filename.
  destruct (contains (lit ".") filename) eqn:Hdot; [|done].
  destruct (getitem (rsplit1 (lit ".") filename) 1) as [ext0|e]; [|done].
  intros [= Hin%bool_decide_eq_true]. exists (lower ext0). split_and!; [done..| |].
  - unfold output_filename, rsplit1.
    pose proof (allowed_extension_no_dot _ Hin) as Hno.
    rewrite lit_dot in *.
    rewrite (rfind_char_last 46%N (take 8 uuid4) (lower ext0) Hno).
    cbn [getitem lookup list_lookup]. by rewrite take_app_length.
  - apply startswith_self.
Qed.

Lemma generate_unique_filename_allowed_witness :
  ∃ ext,
    ext ∈ ALLOWED_EXTENSIONS ∧
    generate_unique_filename ascii_lower (lit "3f2a9c1e-7b4d-4e1a-9c3f-0a1b2c3d4e5f")
      (lit "holiday.photo.JPG")
    = Return (take 8 (lit "3f2a9c1e-7b4d-4e1a-9c3f-0a1b2c3d4e5f") ++ lit "." ++ ext) ∧
    output_filename (take 8 (lit "3f2a9c1e-7b4d-4e1a-9c3f-0a1b2c3d4e5f") ++ lit "." ++ ext)
    = Return (lit "encoded_" ++ take 8 (lit "3f2a9c1e-7b4d-4e1a-9c3f-0a1b2c3d4e5f")
              ++ lit ".png") ∧
    startswith (lit "encoded_")
      (lit "encoded_" ++ take 8 (lit "3f2a9c1e-7b4d-4e1a-9c3f-0a1b2c3d4e5f") ++ lit ".png")
    = true.
Proof.
  apply (generate_unique_filename_allowed ascii_lower). vm_compute. reflexivity.
Defined.

(** X13.  On a name without a dot [generate_unique_filename] raises
    [IndexError], and [allowed_file], which the routes call first, returns
    [False] without raising. *)
Theorem filename_without_dot (lower : list N → list N) uuid4 filename :
  contains (lit ".") filename = false →
  allowed_file lower filename = Return false ∧
  generate_unique_filename lower uuid4 filename = Raise (lit "list index out of range").
Proof.
  intros Hdot. unfold allowed_file, generate_unique_filename. rewrite Hdot.
  split; [done|]. unfold rsplit1. rewrite lit_dot in *.
  rewrite (proj2 (rfind_None [46%N] filename ltac:(done))); [done|].
  by apply contains_false.
Qed.

Lemma filename_without_dot_witness :
  allowed_file ascii_lower (lit "README") = Return false ∧
  generate_unique_filename ascii_lower (lit "3f2a9c1e-7b4d-4e1a-9c3f-0a1b2c3d4e5f")
    (lit "README")
  = Raise (lit "list index out of range").
Proof.
  apply (filename_without_dot ascii_lower). reflexivity.
Defined.

End UploadHelpers.
